(** * The Qdrant vector-store adapter (libs/langchain-qdrant, vectorstores.js)

    A shallow embedding of the class [QdrantVectorStore].  The adapter owns
    no algorithm: every method is a short composition of calls to three
    outside parties (the Qdrant client, the embeddings provider, the MMR
    utility).  What can be said about it is therefore said about the
    sequence of calls it issues, the arguments it passes and the value it
    hands back.  Asynchronous methods are functions in a state-and-error
    monad whose state holds the outside world, the log of calls issued so
    far and the number of identifiers drawn from the uuid generator. *)

From stdpp Require Import base strings list gmap pretty.

Open Scope string_scope.
Open Scope nat_scope.
Open Scope list_scope.

Set Warnings "-register-all".

(** ** Data *)

Section Model.

(** JavaScript numbers (vector components, scores, the MMR lambda) are only
    carried around by the adapter, never computed on; their type is left
    open.  [World] is the state of everything behind the client and the
    embeddings provider. *)
Context {number World : Type}.

(** JavaScript values as they occur in metadata and payloads. *)
Inductive jsval : Type :=
| JUndefined
| JNull
| JBool (b : bool)
| JNum (x : number)
| JStr (s : string)
| JArr (xs : list jsval)
| JObj (o : gmap string jsval).

Definition Vector : Type := list number.

(** [Document] of @langchain/core: [id] is optional. *)
Record Document : Type := {
  doc_id : option string;
  pageContent : string;
  metadata : jsval;
}.

(** The field object handed to [new Document(...)]. *)
Record DocumentInput : Type := {
  di_id : option string;
  di_metadata : jsval;
  di_pageContent : jsval;
}.

(** A thrown JavaScript value, seen through the properties the adapter
    reads in its [catch] block: [e.status], [e.message],
    [e.data.status.error]. *)
Record JsError : Type := {
  e_name : string;
  e_status : option Z;
  e_message : option string;
  e_data_status_error : option string;
}.

Definition Error (msg : string) : JsError :=
  {| e_name := "Error"; e_status := None; e_message := Some msg;
     e_data_status_error := None |}.

Definition TypeError (msg : string) : JsError :=
  {| e_name := "TypeError"; e_status := None; e_message := Some msg;
     e_data_status_error := None |}.

(** Qdrant schemas, restricted to the fields the adapter writes or reads. *)
Record VectorParams : Type := { size : nat; distance : string }.
Record CreateCollection : Type := { vectors : VectorParams }.
Record CollectionDescription : Type := { name : string }.

Record PointStruct : Type := {
  p_id : string;
  p_vector : Vector;
  p_payload : gmap string jsval;
}.

(** A filter is an object, hence always truthy. *)
Definition QdrantFilter : Type := gmap string jsval.

Record UpsertArgs : Type := { u_wait : bool; u_points : list PointStruct }.

Inductive PointsSelector : Type :=
| ByPoints (points : list string)
| ByFilter (flt : QdrantFilter).

Record DeleteArgs : Type := {
  d_wait : bool;
  d_ordering : string;
  d_selector : PointsSelector;
}.

Record SearchArgs : Type := {
  s_vector : Vector;
  s_limit : option Z;
  s_filter : option QdrantFilter;
  s_with_payload : list string;
  s_with_vector : bool;
}.

Record ScoredPoint : Type := {
  sp_id : string;
  sp_score : number;
  sp_payload : option (gmap string jsval);
  sp_vector : option Vector;
}.

(** ** The outside parties *)

(** A remote operation: it may change the world and either throws or
    returns. *)
Definition Remote (R : Type) : Type := World → World * (JsError + R).

(** [QdrantClient] of @qdrant/js-client-rest: the five methods used. *)
Record QdrantClient : Type := {
  getCollections : Remote (list CollectionDescription);
  createCollection : string → CreateCollection → Remote bool;
  upsert : string → UpsertArgs → Remote unit;
  client_delete : string → DeleteArgs → Remote unit;
  search : string → SearchArgs → Remote (list ScoredPoint);
}.

(** [EmbeddingsInterface] of @langchain/core. *)
Record Embeddings : Type := {
  embedQuery : string → Remote Vector;
  embedDocuments : list string → Remote (list Vector);
}.

(** What the module imports besides the client class: the uuid generator
    (its n-th draw), the MMR utility, the environment reader, and the two
    constructors [new QdrantClient] and [new Document].

    [new Document] reads [pageContent] with a method call on the value it
    is given, so it can throw: [new_Document] is [None] where it does, and
    what it throws is a TypeError.  Which values make it throw is left
    open, except that a string never does. *)
Class Imports : Type := {
  uuid_v4 : nat → string;
  maximalMarginalRelevance :
    Vector → list (option Vector) → option number → Z → list nat;
  getEnvironmentVariable : string → option string;
  new_QdrantClient : option string → option string → QdrantClient;
  new_Document : DocumentInput → option Document;
  new_Document_text :
    ∀ fields text,
      di_pageContent fields = JStr text → is_Some (new_Document fields);
}.

(** ** Parameters of the methods *)

Record QdrantLibArgs : Type := {
  a_client : option QdrantClient;
  a_url : option string;
  a_apiKey : option string;
  a_collectionName : option string;
  a_collectionConfig : option CreateCollection;
  a_customPayload : option (list jsval);
  a_contentPayloadKey : option string;
  a_metadataPayloadKey : option string;
}.

Record QdrantAddDocumentOptions : Type := { customPayload : list jsval }.

(** The declared type excludes giving both [ids] and [filter]; the compiled
    method receives a plain object in which either may be present. *)
Record QdrantDeleteParams : Type := {
  dp_ids : option (list string);
  dp_shardKey : option string;
  dp_filter : option QdrantFilter;
}.

Record MaxMarginalRelevanceSearchOptions : Type := {
  mo_k : Z;
  mo_fetchK : option Z;
  mo_lambda : option number;
  mo_filter : option QdrantFilter;
}.

(** The instance fields. *)
Record QdrantVectorStore : Type := {
  embeddings : Embeddings;
  client : QdrantClient;
  collectionName : string;
  collectionConfig : option CreateCollection;
  contentPayloadKey : string;
  metadataPayloadKey : string;
}.

(** ** Calls, state, and the monad of asynchronous methods *)

Inductive Call : Type :=
| CallGetCollections
| CallCreateCollection (collection : string) (config : CreateCollection)
| CallUpsert (collection : string) (args : UpsertArgs)
| CallDelete (collection : string) (args : DeleteArgs)
| CallSearch (collection : string) (args : SearchArgs)
| CallEmbedQuery (text : string)
| CallEmbedDocuments (texts : list string).

Record State : Type := {
  world : World;
  calls : list Call;
  uuids : nat;
}.

Definition Async (A : Type) : Type := State → State * (JsError + A).

Definition ret {A} (a : A) : Async A := λ s, (s, inr a).

Definition throw {A} (e : JsError) : Async A := λ s, (s, inl e).

Definition bind {A B} (m : Async A) (k : A → Async B) : Async B :=
  λ s, match m s with
       | (s', inl e) => (s', inl e)
       | (s', inr a) => k a s'
       end.

Definition try_catch {A} (m : Async A) (h : JsError → Async A) : Async A :=
  λ s, match m s with
       | (s', inl e) => h e s'
       | (s', inr a) => (s', inr a)
       end.

(** [await] of a call to an outside party: the call is logged, then made. *)
Definition await {R} (c : Call) (op : Remote R) : Async R :=
  λ s, let (w, r) := op (world s) in
       ({| world := w; calls := calls s ++ [c]; uuids := uuids s |}, r).

(** [uuid()]: the next draw of the generator. *)
Definition uuid `{Imports} : Async string :=
  λ s, ({| world := world s; calls := calls s; uuids := S (uuids s) |},
        inr (uuid_v4 (uuids s))).

(** A synchronous step that may throw. *)
Definition lift {A} (r : JsError + A) : Async A := λ s, (s, r).

Notation "x <- m ;; k" := (bind m (λ x, k))
  (at level 100, m at next level, right associativity).
Notation "m ;;; k" := (bind m (λ _, k))
  (at level 100, right associativity).

(** ** JavaScript idioms *)

(** [x ?? y] where [y] may itself be undefined. *)
Definition coalesce {A} (x y : option A) : option A :=
  match x with
  | Some a => Some a
  | None => y
  end.

(** Truthiness of an optional string: undefined and the empty string are
    falsy. *)
Definition truthy_string (x : option string) : bool :=
  match x with
  | Some s => bool_decide (s ≠ "")
  | None => false
  end.

(** Truthiness of an optional object or array: only undefined is falsy. *)
Definition truthy_object {A} (x : option A) : bool :=
  match x with
  | Some _ => true
  | None => false
  end.

(** [o[k]]: reading a property that is not there gives [undefined]. *)
Definition property (o : gmap string jsval) (k : string) : jsval :=
  default JUndefined (o !! k).

(** [l.slice(i, j)]. *)
Definition slice {A} (l : list A) (i j : nat) : list A :=
  take (j - i) (drop i l).

(** [l.map((x, idx) => f(x, idx))] for a callback that may throw or draw a
    uuid; elements are visited in order. *)
Fixpoint map_idx {A B} (f : A → nat → Async B) (l : list A) (idx : nat)
  : Async (list B) :=
  match l with
  | [] => ret []
  | x :: l' =>
      y <- f x idx ;;
      ys <- map_idx f l' (S idx) ;;
      ret (y :: ys)
  end.

Definition mapM {A B} (f : A → Async B) (l : list A) : Async (list B) :=
  map_idx (λ x _, f x) l 0.

(** ** The class *)

Context `{!Imports}.

Definition CONTENT_KEY : string := "content".
Definition METADATA_KEY : string := "metadata".

(** [constructor(embeddings, args)]; [super] stores [embeddings]. *)
Definition new_QdrantVectorStore (embeddings : Embeddings)
    (args : QdrantLibArgs) : JsError + QdrantVectorStore :=
  let url := coalesce (a_url args) (getEnvironmentVariable "QDRANT_URL") in
  let apiKey :=
    coalesce (a_apiKey args) (getEnvironmentVariable "QDRANT_API_KEY") in
  if negb (truthy_object (a_client args)) && negb (truthy_string url) then
    inl (Error "Qdrant client or url address must be set.")
  else
    inr {| embeddings := embeddings;
           client := match a_client args with
                     | Some c => c
                     | None => new_QdrantClient url apiKey
                     end;
           collectionName := default "documents" (a_collectionName args);
           collectionConfig := a_collectionConfig args;
           contentPayloadKey :=
             default CONTENT_KEY (a_contentPayloadKey args);
           metadataPayloadKey :=
             default METADATA_KEY (a_metadataPayloadKey args) |}.

Definition ensureCollection (this : QdrantVectorStore) : Async unit :=
  response <- await CallGetCollections (getCollections (client this)) ;;
  let collectionNames := map name response in
  if bool_decide (collectionName this ∈ collectionNames) then ret tt
  else
    config <-
      match collectionConfig this with
      | Some c => ret c
      | None =>
          probe <- await (CallEmbedQuery "test")
                     (embedQuery (embeddings this) "test") ;;
          ret {| vectors := {| size := length probe;
                               distance := "Cosine" |} |}
      end ;;
    await (CallCreateCollection (collectionName this) config)
      (createCollection (client this) (collectionName this) config) ;;;
    ret tt.

(** The payload object literal of [addVectors]: three properties written in
    this order, a later one replacing an earlier one of the same name. *)
Definition payload_of (this : QdrantVectorStore) (doc : Document)
    (custom : jsval) : gmap string jsval :=
  <["customPayload" := custom]>
    (<[metadataPayloadKey this := metadata doc]>
       (<[contentPayloadKey this := JStr (pageContent doc)]> ∅)).

(** [documentOptions?.customPayload[idx]]. *)
Definition custom_at (documentOptions : option QdrantAddDocumentOptions)
    (idx : nat) : jsval :=
  match documentOptions with
  | None => JUndefined
  | Some o => default JUndefined (customPayload o !! idx)
  end.

(** The callback of [vectors.map] in [addVectors]. *)
Definition point (this : QdrantVectorStore) (documents : list Document)
    (documentOptions : option QdrantAddDocumentOptions)
    (embedding : Vector) (idx : nat) : Async PointStruct :=
  match documents !! idx with
  | None =>
      throw (TypeError "Cannot read properties of undefined (reading 'id')")
  | Some doc =>
      id <- match doc_id doc with
            | Some i => ret i
            | None => uuid
            end ;;
      ret {| p_id := id;
             p_vector := embedding;
             p_payload := payload_of this doc (custom_at documentOptions idx) |}
  end.

(** The message built in the [catch] block of [addVectors]. *)
Definition upsert_error (e : JsError) : JsError :=
  Error (match e_status e with
         | Some n => pretty n
         | None => "Undefined error code"
         end
         +:+ " " +:+ default "undefined" (e_message e)
         +:+ ": " +:+ default "undefined" (e_data_status_error e)).

Definition addVectors (this : QdrantVectorStore) (vectors : list Vector)
    (documents : list Document)
    (documentOptions : option QdrantAddDocumentOptions) : Async unit :=
  if bool_decide (length vectors = 0) then ret tt
  else
    ensureCollection this ;;;
    points <- map_idx (point this documents documentOptions) vectors 0 ;;
    try_catch
      (await (CallUpsert (collectionName this)
                {| u_wait := true; u_points := points |})
         (upsert (client this) (collectionName this)
            {| u_wait := true; u_points := points |}))
      (λ e, throw (upsert_error e)).

Definition addDocuments (this : QdrantVectorStore)
    (documents : list Document)
    (documentOptions : option QdrantAddDocumentOptions) : Async unit :=
  let texts := map pageContent documents in
  vs <- await (CallEmbedDocuments texts)
          (embedDocuments (embeddings this) texts) ;;
  addVectors this vs documents documentOptions.

Definition batchSize : nat := 1000.

Definition delete_args (sel : PointsSelector) : DeleteArgs :=
  {| d_wait := true; d_ordering := "weak"; d_selector := sel |}.

(** The [for] loop of [delete]; [fuel] bounds the number of iterations. *)
Fixpoint delete_loop (this : QdrantVectorStore) (ids : list string)
    (fuel i : nat) : Async unit :=
  match fuel with
  | 0 => ret tt
  | S fuel' =>
      if bool_decide (i < length ids) then
        let batchIds := slice ids i (i + batchSize) in
        await (CallDelete (collectionName this)
                 (delete_args (ByPoints batchIds)))
          (client_delete (client this) (collectionName this)
             (delete_args (ByPoints batchIds))) ;;;
        delete_loop this ids fuel' (i + batchSize)
      else ret tt
  end.

Definition delete (this : QdrantVectorStore) (params : QdrantDeleteParams)
  : Async unit :=
  match dp_ids params with
  | Some ids => delete_loop this ids (length ids) 0
  | None =>
      match dp_filter params with
      | Some flt =>
          await (CallDelete (collectionName this)
                   (delete_args (ByFilter flt)))
            (client_delete (client this) (collectionName this)
               (delete_args (ByFilter flt)))
      | None => throw (Error "Either ids or filter must be provided.")
      end
  end.

(** [new Document(fields)], which either returns the document or throws. *)
Definition construct_Document (fields : DocumentInput) : Async Document :=
  match new_Document fields with
  | Some doc => ret doc
  | None =>
      throw (TypeError "Cannot read properties of null (reading 'toString')")
  end.

(** [new Document({id: res.id, metadata: res.payload[..],
    pageContent: res.payload[..]})]. *)
Definition document_of (this : QdrantVectorStore) (res : ScoredPoint)
  : Async Document :=
  match sp_payload res with
  | None =>
      throw (TypeError "Cannot read properties of undefined")
  | Some payload =>
      construct_Document
        {| di_id := Some (sp_id res);
           di_metadata := property payload (metadataPayloadKey this);
           di_pageContent := property payload (contentPayloadKey this) |}
  end.

(** [query] is [None] for undefined or null; any array, the empty one
    included, is truthy. *)
Definition similaritySearchVectorWithScore (this : QdrantVectorStore)
    (query : option Vector) (k : option Z) (flt : option QdrantFilter)
  : Async (list (Document * number)) :=
  match query with
  | None => ret []
  | Some q =>
      ensureCollection this ;;;
      let args :=
        {| s_vector := q; s_limit := k; s_filter := flt;
           s_with_payload := [metadataPayloadKey this; contentPayloadKey this];
           s_with_vector := false |} in
      results <- await (CallSearch (collectionName this) args)
                   (search (client this) (collectionName this) args) ;;
      mapM (λ res, doc <- document_of this res ;; ret (doc, sp_score res))
        results
  end.

Definition maxMarginalRelevanceSearch (this : QdrantVectorStore)
    (query : string) (options : option MaxMarginalRelevanceSearchOptions)
  : Async (list Document) :=
  if bool_decide (query = "") then ret []
  else
    queryEmbedding <- await (CallEmbedQuery query)
                        (embedQuery (embeddings this) query) ;;
    ensureCollection this ;;;
    let args :=
      {| s_vector := queryEmbedding;
         s_limit := Some (default 20%Z (options ≫= mo_fetchK));
         s_filter := options ≫= mo_filter;
         s_with_payload := [metadataPayloadKey this; contentPayloadKey this];
         s_with_vector := true |} in
    results <- await (CallSearch (collectionName this) args)
                 (search (client this) (collectionName this) args) ;;
    let embeddingList := map sp_vector results in
    match options with
    | None =>
        throw (TypeError "Cannot read properties of undefined (reading 'k')")
    | Some o =>
        let mmrIndexes :=
          maximalMarginalRelevance queryEmbedding embeddingList
            (mo_lambda o) (mo_k o) in
        let topMmrMatches := map (λ idx, results !! idx) mmrIndexes in
        mapM (λ r, match r with
                   | None =>
                       throw (TypeError "Cannot read properties of undefined")
                   | Some res => document_of this res
                   end)
          topMmrMatches
    end.

Definition fromDocuments (docs : list Document) (embeddings : Embeddings)
    (dbConfig : QdrantLibArgs) : Async QdrantVectorStore :=
  instance <- lift (new_QdrantVectorStore embeddings dbConfig) ;;
  match a_customPayload dbConfig with
  | Some cp => addDocuments instance docs (Some {| customPayload := cp |})
  | None => addDocuments instance docs None
  end ;;;
  ret instance.

(** [metadatas] is an array (left) or one object shared by all texts. *)
Definition fromTexts (texts : list string) (metadatas : list jsval + jsval)
    (embeddings : Embeddings) (dbConfig : QdrantLibArgs)
  : Async QdrantVectorStore :=
  docs <- map_idx
            (λ text i,
               construct_Document
                 {| di_id := None;
                    di_metadata := match metadatas with
                                   | inl ms => default JUndefined (ms !! i)
                                   | inr m => m
                                   end;
                    di_pageContent := JStr text |})
            texts 0 ;;
  fromDocuments docs embeddings dbConfig.

Definition fromExistingCollection (embeddings : Embeddings)
    (dbConfig : QdrantLibArgs) : Async QdrantVectorStore :=
  instance <- lift (new_QdrantVectorStore embeddings dbConfig) ;;
  ensureCollection instance ;;;
  ret instance.

End Model.

Arguments jsval : clear implicits.
Arguments Vector : clear implicits.
Arguments Document : clear implicits.
Arguments DocumentInput : clear implicits.
Arguments PointStruct : clear implicits.
Arguments QdrantFilter : clear implicits.
Arguments UpsertArgs : clear implicits.
Arguments PointsSelector : clear implicits.
Arguments DeleteArgs : clear implicits.
Arguments SearchArgs : clear implicits.
Arguments ScoredPoint : clear implicits.
Arguments Remote : clear implicits.
Arguments QdrantClient : clear implicits.
Arguments Embeddings : clear implicits.
Arguments Imports : clear implicits.
Arguments QdrantLibArgs : clear implicits.
Arguments QdrantAddDocumentOptions : clear implicits.
Arguments QdrantDeleteParams : clear implicits.
Arguments MaxMarginalRelevanceSearchOptions : clear implicits.
Arguments QdrantVectorStore : clear implicits.
Arguments Call : clear implicits.
Arguments State : clear implicits.
Arguments Async : clear implicits.

(** ** Vocabulary of the statements *)

(** A connection URL is available when the argument is a non-empty string
    or, the argument being absent, the environment variable is one. *)
Definition url_available {number World} `{!Imports number World}
    (args : QdrantLibArgs number World) : Prop :=
  match a_url args with
  | Some u => u ≠ ""
  | None =>
      match getEnvironmentVariable "QDRANT_URL" with
      | Some u => u ≠ ""
      | None => False
      end
  end.

(** Does a logged call create the collection [collection]? *)
Definition creates {number} (collection : string) (c : Call number) : bool :=
  match c with
  | CallCreateCollection n _ => bool_decide (n = collection)
  | _ => false
  end.

Definition creations {number} (collection : string) (cs : list (Call number))
  : nat :=
  length (List.filter (creates collection) cs).

(** Is a logged call an upsert? *)
Definition is_upsert {number} (c : Call number) : bool :=
  match c with
  | CallUpsert _ _ => true
  | _ => false
  end.

(** Does a document come without an identifier? *)
Definition lacks_id {number} (d : Document number) : bool :=
  match doc_id d with
  | Some _ => false
  | None => true
  end.

(** The number of documents of [docs] that come without an identifier, that
    is, the number of uuids drawn while building their points. *)
Definition drawn {number} (docs : list (Document number)) : nat :=
  length (List.filter lacks_id docs).

(** The request logged for the deletion of one batch of identifiers. *)
Definition delete_call {number} (collection : string) (batch : list string)
  : Call number :=
  CallDelete collection (delete_args (ByPoints batch)).

(** The world left by the delete calls for [chunks], each made in the world
    the previous one left. *)
Definition after_deletes {number World} (c : QdrantClient number World)
    (collection : string) (w : World) (chunks : list (list string)) : World :=
  foldl (λ w chunk,
           (client_delete c collection (delete_args (ByPoints chunk)) w).1)
    w chunks.

(** The list [l] cut into consecutive pieces of [b] elements, the last one
    possibly shorter; at most [fuel] pieces. *)
Fixpoint batches {A} (b fuel : nat) (l : list A) : list (list A) :=
  match fuel with
  | 0 => []
  | S fuel' =>
      match l with
      | [] => []
      | _ :: _ => take b l :: batches b fuel' (drop b l)
      end
  end.

(** ** A service kept in memory

    One concrete world, used to run the adapter on explicit inputs: numbers
    are integers, the service keeps its collections and points in lists,
    the embedding of a text is its length followed by one, and the MMR
    stand-in returns the first [k] candidates in reverse order. *)

Record MemWorld : Type := {
  m_collections : list (string * CreateCollection);
  m_points : list (string * PointStruct Z);
}.

Definition api_error (status : Z) (msg : string) : JsError :=
  {| e_name := "ApiError"; e_status := Some status; e_message := Some msg;
     e_data_status_error := Some msg |}.

Definition mem_has (w : MemWorld) (n : string) : bool :=
  bool_decide (n ∈ map fst (m_collections w)).

Definition mem_selected (n : string) (sel : PointsSelector Z)
    (np : string * PointStruct Z) : bool :=
  bool_decide (np.1 = n) &&
  match sel with
  | ByPoints ps => bool_decide (p_id np.2 ∈ ps)
  | ByFilter _ => true
  end.

Definition mem_scored (with_vector : bool) (p : PointStruct Z)
  : ScoredPoint Z :=
  {| sp_id := p_id p; sp_score := 0%Z; sp_payload := Some (p_payload p);
     sp_vector := if with_vector then Some (p_vector p) else None |}.

Definition mem_client : QdrantClient Z MemWorld :=
  {| getCollections := λ w,
       (w, inr (map (λ c, {| name := c.1 |}) (m_collections w)));
     createCollection := λ n cfg w,
       if mem_has w n then (w, inl (api_error 409 "Conflict"))
       else ({| m_collections := m_collections w ++ [(n, cfg)];
                m_points := m_points w |}, inr true);
     upsert := λ n args w,
       if mem_has w n then
         ({| m_collections := m_collections w;
             m_points := m_points w ++ map (pair n) (u_points args) |},
          inr tt)
       else (w, inl (api_error 404 "Not found"));
     client_delete := λ n args w,
       ({| m_collections := m_collections w;
           m_points :=
             List.filter (λ np, negb (mem_selected n (d_selector args) np))
               (m_points w) |}, inr tt);
     search := λ n args w,
       let hits :=
         map (λ np, mem_scored (s_with_vector args) np.2)
           (List.filter (λ np, bool_decide (np.1 = n)) (m_points w)) in
       (w, inr match s_limit args with
               | Some l => take (Z.to_nat l) hits
               | None => hits
               end) |}.

Definition mem_embed (text : string) : Vector Z :=
  [Z.of_nat (String.length text); 1%Z].

Definition mem_embeddings : Embeddings Z MemWorld :=
  {| embedQuery := λ text w, (w, inr (mem_embed text));
     embedDocuments := λ texts w, (w, inr (map mem_embed texts)) |}.

(** A stand-in for the constructor: a null content makes it throw, a
    string is kept, any other content becomes the empty string; missing
    metadata becomes the empty object. *)
Definition mem_new_Document (f : DocumentInput Z) : option (Document Z) :=
  match di_pageContent f with
  | JNull => None
  | content =>
      Some {| doc_id := di_id f;
              pageContent := match content with
                             | JStr s => s
                             | _ => ""
                             end;
              metadata := match di_metadata f with
                          | JUndefined | JNull => JObj ∅
                          | m => m
                          end |}
  end.

Lemma mem_new_Document_text (f : DocumentInput Z) text :
  di_pageContent f = JStr text → is_Some (mem_new_Document f).
Proof. intros Htext. unfold mem_new_Document. rewrite Htext. by eexists. Qed.

#[global] Instance mem_imports : Imports Z MemWorld :=
  {| uuid_v4 := λ n, pretty n;
     maximalMarginalRelevance := λ _ candidates _ k,
       reverse (seq 0 (min (Z.to_nat k) (length candidates)));
     getEnvironmentVariable := λ _, None;
     new_QdrantClient := λ _ _, mem_client;
     new_Document := mem_new_Document;
     new_Document_text := mem_new_Document_text |}.

Definition mem_store : QdrantVectorStore Z MemWorld :=
  {| embeddings := mem_embeddings; client := mem_client;
     collectionName := "documents"; collectionConfig := None;
     contentPayloadKey := "content"; metadataPayloadKey := "metadata" |}.

Definition mem_empty : State Z MemWorld :=
  {| world := {| m_collections := []; m_points := [] |};
     calls := []; uuids := 0 |}.

Definition mem_doc (id : option string) (text : string) : Document Z :=
  {| doc_id := id; pageContent := text; metadata := JObj ∅ |}.


Definition mem_point : PointStruct Z :=
  {| p_id := "0"; p_vector := [1%Z; 2%Z];
     p_payload := payload_of mem_store (mem_doc None "hello") JUndefined |}.

Definition mem_probe_config : CreateCollection :=
  {| vectors := {| size := 2; distance := "Cosine" |} |}.

(** The state after three documents have been stored. *)
Definition mem_loaded : State Z MemWorld :=
  (addVectors mem_store [[1%Z; 2%Z]; [3%Z; 4%Z]; [5%Z; 6%Z]]
     [mem_doc None "a"; mem_doc (Some "x") "b"; mem_doc None "c"]
     None mem_empty).1.

Definition mem_mmr_options : MaxMarginalRelevanceSearchOptions Z :=
  {| mo_k := 2; mo_fetchK := None; mo_lambda := None; mo_filter := None |}.

Definition mem_queried : State Z MemWorld :=
  {| world := world mem_loaded;
     calls := calls mem_loaded ++ [CallEmbedQuery "hi"];
     uuids := uuids mem_loaded |}.

Definition mem_hits : list (ScoredPoint Z) :=
  map (λ np, mem_scored true np.2) (m_points (world mem_loaded)).

(** One thousand and one identifiers. *)
Definition mem_ids : list string := (λ n : nat, pretty n) <$> seq 0 1001.

Definition mem_args (url : option string) : QdrantLibArgs Z MemWorld :=
  {| a_client := None; a_url := url; a_apiKey := None;
     a_collectionName := None; a_collectionConfig := None;
     a_customPayload := None; a_contentPayloadKey := None;
     a_metadataPayloadKey := Some "meta" |}.


(** *** Variants of the service, for runs that go wrong *)

(** A service that refuses any batch of identifiers containing "1000". *)
Definition mem_picky_client : QdrantClient Z MemWorld :=
  {| getCollections := getCollections mem_client;
     createCollection := createCollection mem_client;
     upsert := upsert mem_client;
     client_delete := λ n args w,
       match d_selector args with
       | ByPoints ps =>
           if bool_decide ("1000" ∈ ps)
           then (w, inl (api_error 400 "Bad request"))
           else client_delete mem_client n args w
       | ByFilter _ => client_delete mem_client n args w
       end;
     search := search mem_client |}.

(** A service whose hits come without payload. *)
Definition mem_bare_client : QdrantClient Z MemWorld :=
  {| getCollections := getCollections mem_client;
     createCollection := createCollection mem_client;
     upsert := upsert mem_client;
     client_delete := client_delete mem_client;
     search := λ n args w,
       match search mem_client n args w with
       | (w', inr hits) =>
           (w', inr (map (λ h, {| sp_id := sp_id h; sp_score := sp_score h;
                                  sp_payload := None;
                                  sp_vector := sp_vector h |}) hits))
       | r => r
       end |}.

Definition mem_store_with (c : QdrantClient Z MemWorld)
  : QdrantVectorStore Z MemWorld :=
  {| embeddings := mem_embeddings; client := c;
     collectionName := "documents"; collectionConfig := None;
     contentPayloadKey := "content"; metadataPayloadKey := "metadata" |}.

(** A store whose content and metadata keys are the same. *)
Definition mem_clash_store : QdrantVectorStore Z MemWorld :=
  {| embeddings := mem_embeddings; client := mem_client;
     collectionName := "documents"; collectionConfig := None;
     contentPayloadKey := "data"; metadataPayloadKey := "data" |}.

(** A store with a configuration of its own. *)
Definition mem_configured_store : QdrantVectorStore Z MemWorld :=
  {| embeddings := mem_embeddings; client := mem_client;
     collectionName := "documents";
     collectionConfig :=
       Some {| vectors := {| size := 3; distance := "Dot" |} |};
     contentPayloadKey := "content"; metadataPayloadKey := "metadata" |}.

(** The imports of [mem_imports] with QDRANT_URL set in the environment. *)
Definition mem_env_imports : Imports Z MemWorld :=
  {| uuid_v4 := uuid_v4 (Imports := mem_imports);
     maximalMarginalRelevance :=
       maximalMarginalRelevance (Imports := mem_imports);
     getEnvironmentVariable := λ v,
       if bool_decide (v = "QDRANT_URL") then Some "http://env:6333"
       else None;
     new_QdrantClient := new_QdrantClient (Imports := mem_imports);
     new_Document := mem_new_Document;
     new_Document_text := mem_new_Document_text |}.

(** Two thousand and one identifiers. *)
Definition mem_many_ids : list string :=
  (λ n : nat, pretty n) <$> seq 0 2001.

(** A service that refuses every upsert, and one that cannot even list its
    collections. *)
Definition mem_readonly_client : QdrantClient Z MemWorld :=
  {| getCollections := getCollections mem_client;
     createCollection := createCollection mem_client;
     upsert := λ _ _ w, (w, inl (api_error 403 "Forbidden"));
     client_delete := client_delete mem_client;
     search := search mem_client |}.

Definition mem_down_client : QdrantClient Z MemWorld :=
  {| getCollections := λ w, (w, inl (api_error 503 "Unavailable"));
     createCollection := createCollection mem_client;
     upsert := upsert mem_client;
     client_delete := client_delete mem_client;
     search := search mem_client |}.

(** An embeddings provider that is down. *)
Definition mem_down_embeddings : Embeddings Z MemWorld :=
  {| embedQuery := λ _ w, (w, inl (api_error 503 "Unavailable"));
     embedDocuments := λ _ w, (w, inl (api_error 503 "Unavailable")) |}.


Definition mem_bare_hits : list (ScoredPoint Z) :=
  map (λ h, {| sp_id := sp_id h; sp_score := sp_score h; sp_payload := None;
               sp_vector := sp_vector h |}) mem_hits.

(** Arguments with one extra payload entry, for two documents. *)
Definition mem_custom_args : QdrantLibArgs Z MemWorld :=
  {| a_client := Some mem_client; a_url := None; a_apiKey := None;
     a_collectionName := None; a_collectionConfig := None;
     a_customPayload := Some [JStr "first"]; a_contentPayloadKey := None;
     a_metadataPayloadKey := None |}.

Definition mem_custom_points : list (PointStruct Z) :=
  [ {| p_id := "0"; p_vector := mem_embed "a";
       p_payload := payload_of mem_store (mem_doc None "a") (JStr "first") |};
    {| p_id := "1"; p_vector := mem_embed "b";
       p_payload := payload_of mem_store (mem_doc None "b") JUndefined |} ].

(** A store whose content key is the name of the third key of the payload
    literal, and the point it builds for the text "hello". *)
Definition mem_shadowed_store : QdrantVectorStore Z MemWorld :=
  {| embeddings := mem_embeddings; client := mem_client;
     collectionName := "documents"; collectionConfig := None;
     contentPayloadKey := "customPayload"; metadataPayloadKey := "metadata" |}.

Definition mem_shadowed_point : PointStruct Z :=
  {| p_id := "0"; p_vector := [1%Z; 2%Z];
     p_payload :=
       <["customPayload" := JUndefined]> (<["metadata" := JObj ∅]> ∅) |}.



(** A state whose collection holds one point, the content of which is
    null. *)
Definition mem_null_point : PointStruct Z :=
  {| p_id := "9"; p_vector := [1%Z; 2%Z];
     p_payload := <["content" := JNull]> (<["metadata" := JObj ∅]> ∅) |}.

Definition mem_null_loaded : State Z MemWorld :=
  {| world := {| m_collections := [("documents", mem_probe_config)];
                 m_points := [("documents", mem_null_point)] |};
     calls := []; uuids := 0 |}.

(** Arguments that bring their own client. *)
Definition mem_client_args : QdrantLibArgs Z MemWorld :=
  {| a_client := Some mem_client; a_url := None; a_apiKey := None;
     a_collectionName := None; a_collectionConfig := None;
     a_customPayload := None; a_contentPayloadKey := None;
     a_metadataPayloadKey := None |}.

(** ** Properties *)

Section Properties.

Context {number World : Type} `{!Imports number World}.

Implicit Types (this : QdrantVectorStore number World).
Implicit Types (s : State number World).

(** *** Running the monad *)

Lemma bind_inl {A B} (m : Async number World A) (k : A → Async number World B)
    s s' e :
  m s = (s', inl e) → bind m k s = (s', inl e).
Proof. intros Hm. unfold bind. by rewrite Hm. Qed.

Lemma bind_inr {A B} (m : Async number World A) (k : A → Async number World B)
    s s' a :
  m s = (s', inr a) → bind m k s = k a s'.
Proof. intros Hm. unfold bind. by rewrite Hm. Qed.

Lemma await_eq {R} (c : Call number) (op : Remote World R) s w r :
  op (world s) = (w, r) →
  await c op s =
    ({| world := w; calls := calls s ++ [c]; uuids := uuids s |}, r).
Proof. intros Hop. unfold await. by rewrite Hop. Qed.

(** *** Cutting a list into batches *)

Lemma batchSize_pos : 0 < batchSize.
Proof. unfold batchSize. lia. Qed.

Lemma batchSize_eq : batchSize = 1000.
Proof. reflexivity. Qed.

Lemma batches_nil {A} b fuel : batches b fuel ([] : list A) = [].
Proof. by destruct fuel. Qed.

Lemma batches_concat {A} b fuel (l : list A) :
  0 < b → length l ≤ fuel → concat (batches b fuel l) = l.
Proof.
  intros Hb. revert l. induction fuel as [|fuel IH]; intros l Hl.
  - destruct l; [done | simpl in Hl; lia].
  - destruct l as [|x l]; [done|].
    cbn [batches concat]. rewrite IH.
    + apply take_drop.
    + rewrite length_drop. simpl in *. lia.
Qed.

Lemma batches_bounds {A} b fuel (l : list A) :
  0 < b → Forall (λ c, 0 < length c ≤ b) (batches b fuel l).
Proof.
  intros Hb. revert l. induction fuel as [|fuel IH]; intros l; [constructor|].
  destruct l as [|x l]; [constructor|].
  cbn [batches]. constructor; [|apply IH].
  rewrite length_take. simpl. lia.
Qed.

Lemma batches_several {A} b fuel (l : list A) :
  0 < b → length l ≤ fuel → b < length l → 1 < length (batches b fuel l).
Proof.
  intros Hb Hfuel Hlen.
  destruct fuel as [|fuel]; [lia|].
  destruct l as [|x l]; [simpl in Hlen; lia|].
  cbn [batches length].
  assert (Hrest : 0 < length (drop b (x :: l))).
  { rewrite length_drop. lia. }
  destruct fuel as [|fuel].
  - simpl in Hfuel, Hlen. lia.
  - destruct (drop b (x :: l)); [simpl in Hrest; lia|]. simpl. lia.
Qed.

(** *** The loop of delete *)

Local Opaque batchSize.

Lemma delete_loop_spec this ids fuel i s :
  length ids - i ≤ fuel →
  let cs := batches batchSize fuel (drop i ids) in
  ∃ m,
    m ≤ length cs ∧
    (cs ≠ [] → 0 < m) ∧
    calls (delete_loop this ids fuel i s).1 =
      calls s ++ (delete_call (collectionName this) <$> take m cs) ∧
    world (delete_loop this ids fuel i s).1 =
      after_deletes (client this) (collectionName this) (world s)
        (take m cs) ∧
    uuids (delete_loop this ids fuel i s).1 = uuids s ∧
    ((delete_loop this ids fuel i s).2 = inr tt → m = length cs).
Proof.
  revert i s. induction fuel as [|fuel IH]; intros i s Hfuel cs; subst cs.
  - exists 0. cbn. by rewrite app_nil_r.
  - cbn [delete_loop]. case_bool_decide as Hi.
    + assert (Hd : ∃ x l, drop i ids = x :: l).
      { destruct (drop i ids) as [|x l] eqn:E; [|by eauto].
        apply drop_nil_inv in E. lia. }
      destruct Hd as (x & l & Hd).
      unfold slice. replace (i + batchSize - i) with batchSize by lia.
      rewrite Hd. cbn [batches]. rewrite <- Hd, drop_drop.
      set (c := CallDelete _ _). set (op := client_delete _ _ _).
      unfold bind, await.
      destruct (op (world s)) as [w [e|[]]] eqn:Hop.
      * exists 1. cbn [length take fmap list_fmap fst snd calls world uuids].
        rewrite take_0. unfold after_deletes. cbn [foldl]. fold op.
        rewrite Hop. split; [lia|]. split; [lia|]. done.
      * set (s1 := {| world := w; calls := calls s ++ [c]; uuids := uuids s |}).
        destruct (IH (i + batchSize) s1)
          as (m & Hm & Hpos & Hcalls & Hworld & Hu & Hok).
        { pose proof batchSize_pos. lia. }
        exists (S m). cbn [length take fmap list_fmap].
        split; [lia|]. split; [lia|]. split; [|split; [|split]].
        -- rewrite Hcalls. cbn. by rewrite <- app_assoc.
        -- rewrite Hworld. unfold after_deletes. cbn [foldl]. fold op.
           by rewrite Hop.
        -- by rewrite Hu.
        -- intros Hr. by rewrite (Hok Hr).
    + rewrite drop_ge by lia. exists 0. cbn. by rewrite app_nil_r.
Qed.

Lemma delete_loop_succeeds this ids fuel i s :
  (∀ batch w, ∃ w',
     client_delete (client this) (collectionName this)
       (delete_args (ByPoints batch)) w = (w', inr tt)) →
  (delete_loop this ids fuel i s).2 = inr tt.
Proof.
  intros Hok. revert i s. induction fuel as [|fuel IH]; intros i s; [done|].
  cbn [delete_loop]. case_bool_decide; [|done].
  unfold bind, await.
  destruct (Hok (slice ids i (i + batchSize)) (world s)) as [w' ->].
  apply IH.
Qed.

(** The fuel given by [delete], the length of the list, is never what stops
    the loop: any larger amount gives the same run. *)
Lemma delete_loop_enough_fuel this ids fuel fuel' i s :
  length ids - i ≤ fuel → fuel ≤ fuel' →
  delete_loop this ids fuel i s = delete_loop this ids fuel' i s.
Proof.
  revert fuel' i s. induction fuel as [|fuel IH]; intros fuel' i s Hfuel Hle.
  - destruct fuel' as [|fuel']; [done|]. cbn [delete_loop].
    by rewrite bool_decide_eq_false_2 by lia.
  - destruct fuel' as [|fuel']; [lia|]. cbn [delete_loop].
    case_bool_decide; [|done].
    unfold bind. destruct (await _ _ s) as [s1 [e|[]]]; [done|].
    apply IH; pose proof batchSize_pos; lia.
Qed.

(** *** delete: the argument check *)

(** C10. Deleting with an empty list of identifiers and no filter resolves
    successfully: no error is raised and nothing is sent; the state,
    log of calls included, is the one before the call. *)
Theorem delete_empty_ids_resolves this shardKey s :
  delete this {| dp_ids := Some []; dp_shardKey := shardKey;
                 dp_filter := None |} s = (s, inr tt).
Proof. reflexivity. Qed.


(** C4. Deleting by a list of identifiers cuts the list, in order, into
    consecutive batches of at most 1000 identifiers whose concatenation is
    the list itself, so that every identifier lies in exactly one batch; a
    list of more than 1000 identifiers gives more than one batch.  The
    delete calls issued are, in order, those of the first [m] batches, one
    call per batch; the request of a batch names the configured collection,
    waits for completion, asks for weak ordering and carries the
    identifiers of that batch as its points; each call is made in the world
    the previous one left.  All batches are sent when the method resolves,
    and the method resolves, having sent them all, whenever the service
    accepts its delete calls. *)
Theorem delete_ids_in_batches this params ids s :
  dp_ids params = Some ids →
  let request (chunk : list string) : DeleteArgs number :=
    {| d_wait := true; d_ordering := "weak"; d_selector := ByPoints chunk |} in
  let sent_to (w : World) (chunks : list (list string)) : World :=
    foldl (λ w chunk,
             (client_delete (client this) (collectionName this)
                (request chunk) w).1) w chunks in
  ∃ chunks : list (list string),
    concat chunks = ids ∧
    Forall (λ c, 0 < length c ≤ 1000) chunks ∧
    (1000 < length ids → 1 < length chunks) ∧
    (∃ m,
       m ≤ length chunks ∧
       calls (delete this params s).1 =
         calls s ++
           ((λ chunk, CallDelete (collectionName this) (request chunk))
              <$> take m chunks) ∧
       world (delete this params s).1 = sent_to (world s) (take m chunks) ∧
       ((delete this params s).2 = inr tt → m = length chunks)) ∧
    ((∀ chunk w, ∃ w',
        client_delete (client this) (collectionName this)
          (request chunk) w = (w', inr tt)) →
     (delete this params s).2 = inr tt ∧
     calls (delete this params s).1 =
       calls s ++
         ((λ chunk, CallDelete (collectionName this) (request chunk))
            <$> chunks) ∧
     world (delete this params s).1 = sent_to (world s) chunks).
Proof.
  intros Hids request sent_to.
  exists (batches batchSize (length ids) ids).
  pose proof batchSize_pos as Hb.
  split; [by apply batches_concat|].
  split; [rewrite <- batchSize_eq; by apply batches_bounds|].
  split; [rewrite <- batchSize_eq; by apply batches_several|].
  unfold delete. rewrite Hids.
  destruct (delete_loop_spec this ids (length ids) 0 s)
    as (m & Hm & _ & Hcalls & Hworld & _ & Hok); [lia|].
  rewrite drop_0 in Hm, Hcalls, Hworld, Hok.
  split; [exists m; by repeat split|].
  intros Hsvc.
  pose proof (delete_loop_succeeds this ids (length ids) 0 s Hsvc) as Hr.
  split; [done|].
  rewrite Hcalls, Hworld, (Hok Hr). by rewrite firstn_all.
Qed.

(** *** ensureCollection *)

Lemma creations_app (collection : string) (cs1 cs2 : list (Call number)) :
  creations collection (cs1 ++ cs2) =
    creations collection cs1 + creations collection cs2.
Proof. unfold creations. by rewrite List.filter_app, length_app. Qed.

Lemma creates_same (collection : string) config :
  creates (number := number) collection
    (CallCreateCollection collection config) = true.
Proof. cbn. by apply bool_decide_eq_true_2. Qed.

(** A call to [ensureCollection] draws no uuid, its first call lists the
    collections, and none of its calls is an upsert. *)
Lemma ensureCollection_frame this s :
  uuids (ensureCollection this s).1 = uuids s ∧
  ∃ rest,
    calls (ensureCollection this s).1 = calls s ++ CallGetCollections :: rest ∧
    Forall (λ c, is_upsert c = false) rest.
Proof.
  unfold ensureCollection, bind, await, ret.
  destruct (getCollections _ _) as [w1 [e|listing]]; cbn; [by eauto|].
  case_bool_decide; [by eauto|].
  destruct (collectionConfig this) as [config|]; cbn.
  - destruct (createCollection _ _ _ _) as [w2 [e|b]]; cbn;
      rewrite <- app_assoc; split; try done; eexists; split; try done;
      by repeat constructor.
  - destruct (embedQuery _ _ _) as [w2 [e|probe]]; cbn;
      [rewrite <- app_assoc; split; try done; eexists; split; try done;
       by repeat constructor|].
    destruct (createCollection _ _ _ _) as [w3 [e|b]]; cbn;
      rewrite <- !app_assoc; split; try done; eexists; split; try done;
      by repeat constructor.
Qed.

(** C6. [ensureCollection] first lists the collections.  When the target
    name is listed it does nothing more.  When it is not, it creates the
    collection, with the caller's configuration when there is one and
    otherwise with a vector size equal to the length of the embedding of the
    probe text and the Cosine distance.  On a fresh target, when the first
    call resolves and the service lists what it has created, a second
    call only lists: over the two calls the collection is created exactly
    once. *)
Theorem ensureCollection_idempotent this s w1 listing :
  getCollections (client this) (world s) = (w1, inr listing) →
  let target := collectionName this in
  let listed w :=
    {| world := w; calls := calls s ++ [CallGetCollections];
       uuids := uuids s |} in
  (target ∈ map name listing →
   ensureCollection this s = (listed w1, inr tt)) ∧
  (target ∉ map name listing →
   ∀ config w2 r,
     collectionConfig this = Some config →
     createCollection (client this) target config w1 = (w2, r) →
     ensureCollection this s =
       ({| world := w2;
           calls := calls s ++
             [CallGetCollections; CallCreateCollection target config];
           uuids := uuids s |},
        match r with inl e => inl e | inr _ => inr tt end)) ∧
  (target ∉ map name listing →
   ∀ probe w2 w3 r,
     collectionConfig this = None →
     embedQuery (embeddings this) "test" w1 = (w2, inr probe) →
     let config :=
       {| vectors := {| size := length probe; distance := "Cosine" |} |} in
     createCollection (client this) target config w2 = (w3, r) →
     ensureCollection this s =
       ({| world := w3;
           calls := calls s ++
             [CallGetCollections; CallEmbedQuery "test";
              CallCreateCollection target config];
           uuids := uuids s |},
        match r with inl e => inl e | inr _ => inr tt end)) ∧
  (target ∉ map name listing →
   (∀ n config w w' b w'' l,
      createCollection (client this) n config w = (w', inr b) →
      getCollections (client this) w' = (w'', inr l) →
      n ∈ map name l) →
   ∀ s2,
     ensureCollection this s = (s2, inr tt) →
     creations target (calls s2) = S (creations target (calls s)) ∧
     calls (ensureCollection this s2).1 = calls s2 ++ [CallGetCollections] ∧
     creations target (calls (ensureCollection this s2).1) =
       S (creations target (calls s))).
Proof.
  intros Hget target listed. subst target listed. cbn zeta.
  split; [|split; [|split]].
  - intros Hin. unfold ensureCollection, bind, await. rewrite Hget.
    by rewrite bool_decide_eq_true_2.
  - intros Hout config w2 r Hcfg Hcreate.
    unfold ensureCollection, bind, await, ret. rewrite Hget.
    rewrite bool_decide_eq_false_2 by done. rewrite Hcfg. cbn.
    rewrite Hcreate. cbn. rewrite <- app_assoc. by destruct r.
  - intros Hout probe w2 w3 r Hcfg Hprobe Hcreate.
    unfold ensureCollection, bind, await, ret. rewrite Hget.
    rewrite bool_decide_eq_false_2 by done. rewrite Hcfg. cbn.
    rewrite Hprobe. cbn. rewrite Hcreate. cbn. rewrite <- !app_assoc.
    by destruct r.
  - intros Hout Hlaw s2 Hfirst.
    assert (Hs2 : ∃ config w w' b mid,
      createCollection (client this) (collectionName this) config w
        = (w', inr b) ∧
      world s2 = w' ∧
      calls s2 = calls s ++ mid ++
        [CallCreateCollection (collectionName this) config] ∧
      creations (collectionName this) mid = 0).
    { revert Hfirst. unfold ensureCollection, bind, await, ret. rewrite Hget.
      rewrite bool_decide_eq_false_2 by done.
      destruct (collectionConfig this) as [config|]; cbn.
      - destruct (createCollection _ _ _ w1) as [w2 [e|b]] eqn:Hc; cbn;
          intros [= <-].
        exists config, w1, w2, b, [CallGetCollections]. cbn.
        by rewrite <- app_assoc.
      - destruct (embedQuery _ _ _) as [w2 [e|probe]]; cbn; [by intros [=]|].
        destruct (createCollection _ _ _ w2) as [w3 [e|b]] eqn:Hc; cbn;
          intros [= <-].
        eexists _, w2, w3, b, [CallGetCollections; CallEmbedQuery "test"].
        cbn. rewrite <- !app_assoc. by eauto. }
    destruct Hs2 as (config & w & w' & b & mid & Hc & Hw & Hcalls & Hmid).
    assert (Hcount :
      creations (collectionName this) (calls s2) =
        S (creations (collectionName this) (calls s))).
    { rewrite Hcalls, !creations_app, Hmid. unfold creations at 2.
      cbn [List.filter]. rewrite creates_same. cbn. lia. }
    assert (Hsecond :
      calls (ensureCollection this s2).1 = calls s2 ++ [CallGetCollections]).
    { unfold ensureCollection, bind, await, ret. rewrite Hw.
      destruct (getCollections _ w') as [w'' [e|l]] eqn:Hg; cbn; [done|].
      by rewrite bool_decide_eq_true_2 by eauto. }
    split; [done|]. split; [done|].
    rewrite Hsecond, creations_app, Hcount. cbn. lia.
Qed.

(** *** The constructor *)

(** C7. Without a client handle and without an available URL, in
    particular when the URL is given neither as an argument nor by the
    environment, construction fails with the configuration error and
    nothing else happens: the state, log of calls included, is untouched.
    With a client handle or an available URL construction succeeds, the
    collection name and the two payload key names being the supplied ones
    or else "documents", "content" and "metadata"; a supplied client is the
    one kept. *)
Theorem constructor_requires_client_or_url
    (embeddings0 : Embeddings number World) args s :
  (a_client args = None → a_url args = None →
   getEnvironmentVariable "QDRANT_URL" = None →
   lift (new_QdrantVectorStore embeddings0 args) s =
     (s, inl (Error "Qdrant client or url address must be set."))) ∧
  (a_client args = None → ¬ url_available args →
   lift (new_QdrantVectorStore embeddings0 args) s =
     (s, inl (Error "Qdrant client or url address must be set."))) ∧
  (is_Some (a_client args) ∨ url_available args →
   ∃ store,
     lift (new_QdrantVectorStore embeddings0 args) s = (s, inr store) ∧
     collectionName store = default "documents" (a_collectionName args) ∧
     contentPayloadKey store = default "content" (a_contentPayloadKey args) ∧
     metadataPayloadKey store =
       default "metadata" (a_metadataPayloadKey args) ∧
     collectionConfig store = a_collectionConfig args ∧
     embeddings store = embeddings0 ∧
     (∀ c, a_client args = Some c → client store = c)).
Proof.
  unfold lift, new_QdrantVectorStore, url_available, coalesce.
  split; [|split].
  - intros -> -> ->. done.
  - intros -> Hno. cbn.
    destruct (a_url args) as [u|]; cbn.
    + destruct (decide (u = "")) as [->|Hu]; [done | by destruct Hno].
    + destruct (getEnvironmentVariable "QDRANT_URL") as [u|]; cbn; [|done].
      destruct (decide (u = "")) as [->|Hu]; [done | by destruct Hno].
  - intros Hsome.
    assert (Hcond :
      negb (truthy_object (a_client args)) &&
      negb (truthy_string
              match a_url args with
              | Some a => Some a
              | None => getEnvironmentVariable "QDRANT_URL"
              end) = false).
    { destruct Hsome as [[c ->]|Hurl]; [done|].
      apply andb_false_iff. right. apply negb_false_iff.
      destruct (a_url args) as [u|]; cbn.
      - by apply bool_decide_eq_true_2.
      - destruct (getEnvironmentVariable "QDRANT_URL") as [u|]; [|done].
        by apply bool_decide_eq_true_2. }
    rewrite Hcond. eexists. split; [done|]. cbn.
    repeat split. by intros c ->.
Qed.

(** *** Adding and searching *)

Lemma map_idx_calls {A B} (f : A → nat → Async number World B) l :
  (∀ x i s, calls (f x i s).1 = calls s) →
  ∀ i s, calls (map_idx f l i s).1 = calls s.
Proof.
  intros Hf. induction l as [|x l IH]; intros i s; [done|].
  cbn [map_idx]. unfold bind, ret.
  specialize (Hf x i s). destruct (f x i s) as [s1 [e|y]]; [done|].
  specialize (IH (S i) s1). destruct (map_idx f l (S i) s1) as [s2 [e|ys]];
    cbn in *; congruence.
Qed.


Lemma document_of_calls this res s :
  calls (document_of this res s).1 = calls s.
Proof.
  unfold document_of, construct_Document.
  destruct (sp_payload res); [|done]. by destruct (new_Document _).
Qed.

(** *** The points built by addVectors *)

Lemma drawn_app (docs1 docs2 : list (Document number)) :
  drawn (docs1 ++ docs2) = drawn docs1 + drawn docs2.
Proof. unfold drawn. by rewrite List.filter_app, length_app. Qed.

Lemma drawn_take_S (docs : list (Document number)) i d :
  docs !! i = Some d →
  drawn (take (S i) docs) =
    drawn (take i docs) + (if lacks_id d then 1 else 0).
Proof.
  intros Hd. rewrite (take_S_r _ _ _ Hd), drawn_app. f_equal.
  unfold drawn. cbn. by destruct (lacks_id d).
Qed.


Lemma point_run this documents documentOptions v idx s d :
  documents !! idx = Some d →
  point this documents documentOptions v idx s =
    ({| world := world s; calls := calls s;
        uuids := uuids s + (if lacks_id d then 1 else 0) |},
     inr {| p_id := default (uuid_v4 (uuids s)) (doc_id d);
            p_vector := v;
            p_payload := payload_of this d (custom_at documentOptions idx) |}).
Proof.
  intros Hd. unfold point, lacks_id. rewrite Hd.
  unfold bind, ret, uuid. destruct (doc_id d); cbn.
  - rewrite Nat.add_0_r. by destruct s.
  - by rewrite Nat.add_1_r.
Qed.

Lemma point_calls this documents documentOptions v idx s :
  calls (point this documents documentOptions v idx s).1 = calls s.
Proof.
  destruct (documents !! idx) as [d|] eqn:Hd.
  - by rewrite (point_run _ _ _ _ _ _ _ Hd).
  - unfold point. by rewrite Hd.
Qed.

Lemma points_built this documents documentOptions u0 vectors :
  ∀ idx s s' points,
    uuids s = u0 + drawn (take idx documents) →
    map_idx (point this documents documentOptions) vectors idx s
      = (s', inr points) →
    world s' = world s ∧ calls s' = calls s ∧
    uuids s' = u0 + drawn (take (idx + length vectors) documents) ∧
    length points = length vectors ∧
    ∀ i p,
      points !! i = Some p →
      ∃ v d,
        vectors !! i = Some v ∧ documents !! (idx + i) = Some d ∧
        p = {| p_id :=
                 default (uuid_v4 (u0 + drawn (take (idx + i) documents)))
                   (doc_id d);
               p_vector := v;
               p_payload :=
                 payload_of this d (custom_at documentOptions (idx + i)) |}.
Proof.
  induction vectors as [|v vs IH]; intros idx s s' points Hu.
  - cbn. intros [= <- <-]. rewrite Nat.add_0_r. by repeat split.
  - cbn [map_idx]. unfold bind at 1.
    destruct (documents !! idx) as [d|] eqn:Hd.
    2: { unfold point. rewrite Hd. by intros [=]. }
    rewrite (point_run _ _ _ _ _ _ _ Hd).
    set (s1 := {| world := world s; calls := calls s;
                  uuids := uuids s + _ |}).
    unfold bind, ret.
    destruct (map_idx _ vs (S idx) s1) as [s2 [e|ys]] eqn:Hrest;
      [by intros [=]|].
    intros [= <- <-].
    destruct (IH (S idx) s1 s2 ys) as (Hw & Hc & Hu2 & Hlen & Hpts); [|done|].
    { subst s1. cbn. rewrite Hu, (drawn_take_S _ _ _ Hd). lia. }
    split; [done|]. split; [done|]. split.
    { rewrite Hu2. cbn [length]. by rewrite Nat.add_succ_r. }
    split; [by cbn; rewrite Hlen|].
    intros [|i] p Hp.
    + cbn in Hp. injection Hp as <-. exists v, d.
      rewrite Nat.add_0_r, <- Hu. done.
    + cbn in Hp. destruct (Hpts i p Hp) as (v' & d' & Hv' & Hd' & ->).
      exists v', d'. by rewrite Nat.add_succ_r.
Qed.

Lemma points_succeed this documents documentOptions vectors :
  ∀ idx s,
    idx + length vectors ≤ length documents →
    ∃ s' points,
      map_idx (point this documents documentOptions) vectors idx s
        = (s', inr points).
Proof.
  induction vectors as [|v vs IH]; intros idx s Hlen; [by cbn; eauto|].
  cbn [length] in Hlen.
  destruct (lookup_lt_is_Some_2 documents idx) as [d Hd]; [lia|].
  cbn [map_idx]. unfold bind at 1. rewrite (point_run _ _ _ _ _ _ _ Hd).
  edestruct (IH (S idx)) as (s' & ys & Hys); [lia|].
  unfold bind, ret. rewrite Hys. by eauto.
Qed.

(** The two ways a call of [addVectors] with some vectors can go: it stops
    with an error before any upsert, or its points are built and one upsert
    carrying them all is the last call it makes. *)
Lemma addVectors_cases this vectors documents documentOptions s :
  vectors ≠ [] →
  ∃ ens,
    calls (ensureCollection this s).1 = calls s ++ ens ∧
    ens ≠ [] ∧
    Forall (λ c, is_upsert c = false) ens ∧
    ((calls (addVectors this vectors documents documentOptions s).1
        = calls s ++ ens ∧
      ∃ e, (addVectors this vectors documents documentOptions s).2 = inl e)
     ∨
     (∃ s1 s2 points,
        ensureCollection this s = (s1, inr tt) ∧
        map_idx (point this documents documentOptions) vectors 0 s1
          = (s2, inr points) ∧
        ∀ w r,
          upsert (client this) (collectionName this)
            {| u_wait := true; u_points := points |} (world s1) = (w, r) →
          addVectors this vectors documents documentOptions s =
            ({| world := w;
                calls := calls s ++ ens ++
                  [CallUpsert (collectionName this)
                     {| u_wait := true; u_points := points |}];
                uuids := uuids s2 |},
             match r with
             | inl e => inl (upsert_error e)
             | inr u => inr u
             end))).
Proof.
  intros Hne.
  destruct (ensureCollection_frame this s) as (_ & rest & Hens & Hnot).
  exists (CallGetCollections :: rest).
  split; [done|]. split; [done|]. split; [by constructor|].
  unfold addVectors.
  rewrite bool_decide_eq_false_2 by (by destruct vectors).
  destruct (ensureCollection this s) as [s1 [e|[]]] eqn:Hrun; cbn in Hens.
  { left. rewrite (bind_inl _ _ _ _ _ Hrun). cbn. eauto. }
  rewrite (bind_inr _ _ _ _ _ Hrun).
  destruct (map_idx (point this documents documentOptions) vectors 0 s1)
    as [s2 [e|points]] eqn:Hpts.
  { left. rewrite (bind_inl _ _ _ _ _ Hpts). cbn. split; [|by eauto].
    rewrite <- Hens.
    pose proof (map_idx_calls (point this documents documentOptions) vectors
                  (point_calls this documents documentOptions) 0 s1) as Hq.
    by rewrite Hpts in Hq. }
  right. exists s1, s2, points. split; [done|]. split; [done|].
  intros w r Hup. rewrite (bind_inr _ _ _ _ _ Hpts).
  destruct (points_built this documents documentOptions (uuids s1) vectors
              0 s1 s2 points) as (Hw & Hc & _);
    [rewrite take_0; unfold drawn; cbn; lia | done |].
  unfold try_catch, await, throw. rewrite Hw, Hup, Hc, Hens.
  rewrite <- app_assoc. by destruct r.
Qed.

(** C8. Adding an empty array of vectors returns at once, without an error
    and without any call: the state, log of calls included, is the one
    before the call. *)
Theorem addVectors_empty_is_noop this documents documentOptions s :
  addVectors this [] documents documentOptions s = (s, inr tt).
Proof. reflexivity. Qed.

Lemma payload_of_custom this d custom :
  payload_of this d custom !! "customPayload" = Some custom.
Proof. unfold payload_of. apply lookup_insert_eq. Qed.

Lemma payload_of_metadata this d custom :
  metadataPayloadKey this ≠ "customPayload" →
  payload_of this d custom !! metadataPayloadKey this = Some (metadata d).
Proof.
  intros Hmk. unfold payload_of.
  rewrite lookup_insert_ne by done. apply lookup_insert_eq.
Qed.

Lemma payload_of_content this d custom :
  contentPayloadKey this ≠ metadataPayloadKey this →
  contentPayloadKey this ≠ "customPayload" →
  payload_of this d custom !! contentPayloadKey this
    = Some (JStr (pageContent d)).
Proof.
  intros Hck1 Hck2. unfold payload_of.
  rewrite !lookup_insert_ne by done. apply lookup_insert_eq.
Qed.

Lemma payload_of_dom this d custom :
  dom (payload_of this d custom) =
    {[ contentPayloadKey this; metadataPayloadKey this; "customPayload" ]}.
Proof.
  unfold payload_of. rewrite !dom_insert_L, dom_empty_L.
  apply set_eq. intros k.
  rewrite !elem_of_union, !elem_of_singleton, elem_of_empty. tauto.
Qed.


(** The points of the upsert that a call of [addVectors] ends with are the
    points built for the vectors and documents, position by position. *)
Lemma upserted_points_built this vectors documents documentOptions s
    before collection args :
  calls (addVectors this vectors documents documentOptions s).1 =
    calls s ++ before ++ [CallUpsert collection args] →
  ∀ i p,
    u_points args !! i = Some p →
    ∃ v d,
      vectors !! i = Some v ∧ documents !! i = Some d ∧
      p_vector p = v ∧
      p_payload p = payload_of this d (custom_at documentOptions i).
Proof.
  intros Hcalls.
  assert (Hne : vectors ≠ []).
  { intros ->.
    change (addVectors this [] documents documentOptions s).1 with s
      in Hcalls.
    rewrite <- (app_nil_r (calls s)) in Hcalls at 1.
    apply app_inv_head in Hcalls. by destruct before. }
  destruct (addVectors_cases this vectors documents documentOptions s Hne)
    as (ens & _ & _ & Hnot &
        [[Hstop _]|(s1 & s2 & points & Hens & Hpts & Hrun)]).
  { exfalso. rewrite Hstop in Hcalls. apply app_inv_head in Hcalls.
    rewrite Hcalls in Hnot. apply Forall_app in Hnot as [_ Hnot].
    by inversion Hnot. }
  destruct (upsert (client this) (collectionName this)
              {| u_wait := true; u_points := points |} (world s1))
    as [w r] eqn:Hup.
  rewrite (Hrun w r eq_refl) in Hcalls. cbn in Hcalls.
  apply app_inv_head in Hcalls. apply app_inj_tail in Hcalls as [_ Hargs].
  injection Hargs as _ <-. cbn.
  destruct (points_built this documents documentOptions (uuids s1) vectors
              0 s1 s2 points) as (_ & _ & _ & _ & Hbuilt);
    [rewrite take_0; unfold drawn; cbn; lia | done |].
  intros i p Hp. destruct (Hbuilt i p Hp) as (v & d & Hv & Hd & ->).
  cbn in Hd. by eauto 10.
Qed.

(** C3, as the code has it.  Take the point at position i of the upsert
    that a call of [addVectors] ends with, the configured key names being
    distinct from each other and from "customPayload".  It is the point of
    the i-th vector and the i-th document, and its payload has exactly
    three top-level keys: the content key with the text of that document,
    the metadata key with the metadata of that document, and
    "customPayload" with the i-th entry of the extra payload, which is
    [undefined] when no extra payload was given or when it has no i-th
    entry.  The third key is there in either case; when it holds
    [undefined], the two configured keys are the only ones that hold a
    value. *)
Theorem payload_has_three_keys this vectors documents documentOptions
    s before args i p :
  calls (addVectors this vectors documents documentOptions s).1 =
    calls s ++ before ++ [CallUpsert (collectionName this) args] →
  u_points args !! i = Some p →
  contentPayloadKey this ≠ metadataPayloadKey this →
  contentPayloadKey this ≠ "customPayload" →
  metadataPayloadKey this ≠ "customPayload" →
  let extra :=
    match documentOptions with
    | Some options => default JUndefined (customPayload options !! i)
    | None => JUndefined
    end in
  ∃ v d,
    vectors !! i = Some v ∧ documents !! i = Some d ∧
    p_vector p = v ∧
    dom (p_payload p) =
      {[ contentPayloadKey this; metadataPayloadKey this; "customPayload" ]} ∧
    base.size (p_payload p) = 3 ∧
    p_payload p !! contentPayloadKey this = Some (JStr (pageContent d)) ∧
    p_payload p !! metadataPayloadKey this = Some (metadata d) ∧
    p_payload p !! "customPayload" = Some extra ∧
    (extra = JUndefined →
     ∀ k value,
       p_payload p !! k = Some value → value ≠ JUndefined →
       k = contentPayloadKey this ∨ k = metadataPayloadKey this).
Proof.
  intros Hcalls Hp Hcm Hcc Hmc extra.
  destruct (upserted_points_built _ _ _ _ _ _ _ _ Hcalls i p Hp)
    as (v & d & Hv & Hd & Hvec & Hpayload).
  assert (Hextra : custom_at documentOptions i = extra).
  { subst extra. unfold custom_at. by destruct documentOptions. }
  rewrite Hextra in Hpayload. clearbody extra.
  exists v, d. rewrite Hpayload.
  split; [done|]. split; [done|]. split; [done|].
  split; [apply payload_of_dom|].
  split.
  { unfold payload_of.
    rewrite !map_size_insert_None, map_size_empty; [done|..].
    - apply lookup_empty.
    - rewrite lookup_insert_ne by done. apply lookup_empty.
    - rewrite !lookup_insert_ne by done. apply lookup_empty. }
  split; [by apply payload_of_content|].
  split; [by apply payload_of_metadata|].
  split; [apply payload_of_custom|].
  intros -> k value Hk Hdefined.
  assert (Hin : k ∈ dom (payload_of this d JUndefined))
    by (apply elem_of_dom; by eexists).
  rewrite payload_of_dom in Hin.
  rewrite !elem_of_union, !elem_of_singleton in Hin.
  destruct Hin as [[->| ->]| ->]; [by left | by right |].
  rewrite payload_of_custom in Hk. by injection Hk as <-.
Qed.

(** *** Searching *)

(** C2, as the code has it.  With an absent (undefined or null) query
    vector the result is the empty list and nothing is called: the state,
    log of calls included, is untouched.  An empty array is not absent: the
    method goes on and its first call asks the service for the list of
    collections. *)
Theorem similaritySearch_absent_query this k flt s :
  similaritySearchVectorWithScore this None k flt s = (s, inr []) ∧
  ∃ rest,
    calls (similaritySearchVectorWithScore this (Some []) k flt s).1 =
      calls s ++ CallGetCollections :: rest.
Proof.
  split; [done|].
  destruct (ensureCollection_frame this s) as (_ & rest & Hcalls & _).
  unfold similaritySearchVectorWithScore.
  destruct (ensureCollection this s) as [s1 [e|[]]] eqn:Hens;
    cbn in Hcalls.
  { rewrite (bind_inl _ _ _ _ _ Hens). by eauto. }
  rewrite (bind_inr _ _ _ _ _ Hens).
  set (args := {| s_vector := []; s_limit := k |}).
  destruct (search (client this) (collectionName this) args (world s1))
    as [w [e|results]] eqn:Hsearch.
  { rewrite (bind_inl _ _ _ _ _ (await_eq _ _ _ _ _ Hsearch)). cbn.
    rewrite Hcalls, <- app_assoc. by eauto. }
  rewrite (bind_inr _ _ _ _ _ (await_eq _ _ _ _ _ Hsearch)).
  unfold mapM. rewrite map_idx_calls.
  - cbn. rewrite Hcalls, <- app_assoc. by eauto.
  - intros res _ s'. unfold bind, ret.
    pose proof (document_of_calls this res s') as Hq.
    by destruct (document_of this res s') as [s'' [e|doc]].
Qed.


End Properties.

(** ** The properties at work on the service kept in memory *)

Lemma mem_lists_created n config w w' b w'' l :
  createCollection mem_client n config w = (w', inr b) →
  getCollections mem_client w' = (w'', inr l) →
  n ∈ map name l.
Proof.
  cbn. destruct (mem_has w n); [by intros [=]|].
  intros [= <- _] [= _ <-]. cbn.
  rewrite map_map, map_app. cbn. apply elem_of_app. right.
  apply list_elem_of_here.
Qed.

Lemma mem_delete_accepts batch w :
  ∃ w', client_delete mem_client "documents"
          (delete_args (ByPoints batch)) w = (w', inr tt).
Proof. eexists. reflexivity. Defined.

(** Stored documents come back in the order chosen by the MMR stand-in,
    which is not the order in which the service returned them. *)
Example mem_mmr_run :
  (maxMarginalRelevanceSearch mem_store "hi" (Some mem_mmr_options)
     mem_loaded).2
  = inr [ {| doc_id := Some "x"; pageContent := "b"; metadata := JObj ∅ |};
          {| doc_id := Some "0"; pageContent := "a"; metadata := JObj ∅ |} ].
Proof. vm_compute. reflexivity. Qed.

(** A failing upsert is reported with status, message and detail. *)
Example mem_upsert_error :
  upsert_error (api_error 404 "Not found") = Error "404 Not found: Not found".
Proof. vm_compute. reflexivity. Qed.



(** Counterexample to C2: with the empty array as query vector the service
    and the embeddings provider are called four times in all. *)
Lemma similaritySearch_empty_vector_counterexample :
  calls (similaritySearchVectorWithScore mem_store (Some []) None None
           mem_empty).1
  = [ CallGetCollections;
      CallEmbedQuery "test";
      CallCreateCollection "documents" mem_probe_config;
      CallSearch "documents"
        {| s_vector := []; s_limit := None; s_filter := None;
           s_with_payload := ["metadata"; "content"];
           s_with_vector := false |} ].
Proof. vm_compute. reflexivity. Qed.

(** Without any extra payload the payload object built for a document
    still has the key "customPayload", holding [undefined]. *)
Example mem_payload_run :
  calls (addVectors mem_store [[1%Z; 2%Z]] [mem_doc None "hello"] None
           mem_empty).1
  = [ CallGetCollections;
      CallEmbedQuery "test";
      CallCreateCollection "documents" mem_probe_config;
      CallUpsert "documents" {| u_wait := true; u_points := [mem_point] |} ] ∧
  p_payload mem_point !! "customPayload" = Some JUndefined ∧
  base.size (p_payload mem_point) = 3.
Proof. vm_compute. done. Qed.

(** Counterexample to C3: with "customPayload" configured as the content
    key, distinct from the metadata key, the point built for a document
    with the text "hello" does not hold the text under the content key,
    which holds [undefined], nor under any other key.  Its payload has two
    keys, and the metadata key is the only one that holds a value: it is
    the only one left once the properties holding [undefined] are dropped,
    as they are when the request is written out. *)
Lemma payload_content_key_counterexample :
  contentPayloadKey mem_shadowed_store = "customPayload" ∧
  metadataPayloadKey mem_shadowed_store = "metadata" ∧
  calls (addVectors mem_shadowed_store [[1%Z; 2%Z]] [mem_doc None "hello"]
           None mem_empty).1
  = [ CallGetCollections;
      CallEmbedQuery "test";
      CallCreateCollection "documents" mem_probe_config;
      CallUpsert "documents"
        {| u_wait := true; u_points := [mem_shadowed_point] |} ] ∧
  p_payload mem_shadowed_point !! "customPayload" = Some JUndefined ∧
  p_payload mem_shadowed_point !! "metadata" = Some (JObj ∅) ∧
  base.size (p_payload mem_shadowed_point) = 2 ∧
  ∀ k value,
    p_payload mem_shadowed_point !! k = Some value →
    value ≠ JUndefined →
    k = "metadata" ∧ value = JObj ∅.
Proof.
  split; [reflexivity|]. split; [reflexivity|].
  split; [vm_compute; reflexivity|].
  split; [vm_compute; reflexivity|].
  split; [vm_compute; reflexivity|].
  split; [vm_compute; reflexivity|].
  intros k value Hk Hdefined. cbn [p_payload mem_shadowed_point] in Hk.
  destruct (decide (k = "customPayload")) as [->|Hcustom].
  { rewrite lookup_insert_eq in Hk. by injection Hk as <-. }
  rewrite lookup_insert_ne in Hk by done.
  destruct (decide (k = "metadata")) as [->|Hmetadata].
  { rewrite lookup_insert_eq in Hk. by injection Hk as <-. }
  rewrite lookup_insert_ne in Hk by done. by rewrite lookup_empty in Hk.
Qed.

Lemma payload_has_three_keys_witness :
  (∀ p, mem_custom_points !! 0 = Some p →
        p_vector p = mem_embed "a" ∧
        base.size (p_payload p) = 3 ∧
        p_payload p !! "content" = Some (JStr "a") ∧
        p_payload p !! "metadata" = Some (JObj ∅) ∧
        p_payload p !! "customPayload" = Some (JStr "first")) ∧
  (∀ p, mem_custom_points !! 1 = Some p →
        p_vector p = mem_embed "b" ∧
        p_payload p !! "content" = Some (JStr "b") ∧
        p_payload p !! "customPayload" = Some JUndefined ∧
        ∀ k value,
          p_payload p !! k = Some value → value ≠ JUndefined →
          k = "content" ∨ k = "metadata").
Proof.
  pose proof (λ i p,
    @payload_has_three_keys Z MemWorld mem_imports mem_store
      [mem_embed "a"; mem_embed "b"]
      [mem_doc None "a"; mem_doc None "b"]
      (Some {| customPayload := [JStr "first"] |}) mem_empty
      [CallGetCollections; CallEmbedQuery "test";
       CallCreateCollection "documents" mem_probe_config]
      {| u_wait := true; u_points := mem_custom_points |} i p
      ltac:(vm_compute; reflexivity)) as Hkeys.
  split; intros p Hp.
  - destruct (Hkeys 0 p Hp ltac:(discriminate) ltac:(discriminate)
                ltac:(discriminate))
      as (v & d & Hv & Hd & Hvec & _ & Hsize & Hc & Hm & Hx & _).
    injection Hv as <-. injection Hd as <-.
    split; [exact Hvec|]. split; [exact Hsize|]. split; [exact Hc|].
    split; [exact Hm | exact Hx].
  - destruct (Hkeys 1 p Hp ltac:(discriminate) ltac:(discriminate)
                ltac:(discriminate))
      as (v & d & Hv & Hd & Hvec & _ & _ & Hc & _ & Hx & Hdefined).
    injection Hv as <-. injection Hd as <-.
    split; [exact Hvec|]. split; [exact Hc|]. split; [exact Hx|].
    exact (Hdefined eq_refl).
Defined.

(** One thousand and one identifiers go out in two requests. *)
Example mem_delete_run :
  calls (delete mem_store
           {| dp_ids := Some mem_ids; dp_shardKey := None;
              dp_filter := None |} mem_empty).1
  = [ CallDelete "documents"
        {| d_wait := true; d_ordering := "weak";
           d_selector := ByPoints (take 1000 mem_ids) |};
      CallDelete "documents"
        {| d_wait := true; d_ordering := "weak";
           d_selector := ByPoints ["1000"] |} ].
Proof. vm_compute. reflexivity. Qed.

Lemma delete_ids_in_batches_witness :
  ∃ chunks : list (list string),
    concat chunks = mem_ids ∧
    Forall (λ c, 0 < length c ≤ 1000) chunks ∧
    1 < length chunks ∧
    (delete mem_store
       {| dp_ids := Some mem_ids; dp_shardKey := None; dp_filter := None |}
       mem_empty).2 = inr tt ∧
    calls (delete mem_store
             {| dp_ids := Some mem_ids; dp_shardKey := None;
                dp_filter := None |} mem_empty).1
    = (λ chunk,
         CallDelete "documents"
           {| d_wait := true; d_ordering := "weak";
              d_selector := ByPoints chunk |}) <$> chunks.
Proof.
  destruct (delete_ids_in_batches mem_store
              {| dp_ids := Some mem_ids; dp_shardKey := None;
                 dp_filter := None |} mem_ids mem_empty eq_refl)
    as (chunks & Hconcat & Hbounds & Hseveral & _ & Hall).
  destruct (Hall mem_delete_accepts) as (Hr & Hcalls & _).
  exists chunks. split; [exact Hconcat|]. split; [exact Hbounds|].
  split; [|split].
  - apply Hseveral. apply Nat.ltb_lt. vm_compute. reflexivity.
  - exact Hr.
  - exact Hcalls.
Defined.


Lemma ensureCollection_idempotent_witness :
  ensureCollection mem_store mem_empty
  = ({| world := {| m_collections := [("documents", mem_probe_config)];
                    m_points := [] |};
        calls := [ CallGetCollections; CallEmbedQuery "test";
                   CallCreateCollection "documents" mem_probe_config ];
        uuids := 0 |}, inr tt) ∧
  creations "documents"
    (calls (ensureCollection mem_store
              (ensureCollection mem_store mem_empty).1).1) = 1.
Proof.
  pose proof (ensureCollection_idempotent mem_store mem_empty
                (world mem_empty) [] eq_refl) as (_ & _ & Hdefault & Htwice).
  split.
  - exact (Hdefault (not_elem_of_nil _) (mem_embed "test") (world mem_empty)
             {| m_collections := [("documents", mem_probe_config)];
                m_points := [] |}
             (inr true) eq_refl eq_refl eq_refl).
  - exact (proj2 (proj2 (Htwice (not_elem_of_nil _) mem_lists_created
                           (ensureCollection mem_store mem_empty).1
                           eq_refl))).
Defined.

Lemma constructor_requires_client_or_url_witness :
  lift (new_QdrantVectorStore mem_embeddings (mem_args None)) mem_empty
  = (mem_empty, inl (Error "Qdrant client or url address must be set.")) ∧
  ∃ store,
    lift (new_QdrantVectorStore mem_embeddings
            (mem_args (Some "http://localhost:6333"))) mem_empty
    = (mem_empty, inr store) ∧
    collectionName store = "documents" ∧
    contentPayloadKey store = "content" ∧
    metadataPayloadKey store = "meta".
Proof.
  split.
  - apply (proj1 (constructor_requires_client_or_url mem_embeddings
                    (mem_args None) mem_empty)); reflexivity.
  - destruct (proj2 (proj2 (constructor_requires_client_or_url mem_embeddings
                (mem_args (Some "http://localhost:6333")) mem_empty)))
      as (store & Hnew & Hname & Hck & Hmk & _).
    + right. cbn. discriminate.
    + exists store. repeat split; assumption.
Defined.


(** ** Further properties of the methods *)

Section Further.

Context {number World : Type} `{!Imports number World}.

Implicit Types (this : QdrantVectorStore number World).
Implicit Types (s : State number World).

Local Opaque batchSize.

(** *** delete *)

Lemma delete_loop_failure this ids fuel i s e :
  (delete_loop this ids fuel i s).2 = inl e →
  ∃ sent failed rest,
    batches batchSize fuel (drop i ids) = sent ++ failed :: rest ∧
    calls (delete_loop this ids fuel i s).1 =
      calls s ++ (delete_call (collectionName this) <$> sent ++ [failed]) ∧
    (∀ k chunk,
       sent !! k = Some chunk →
       (client_delete (client this) (collectionName this)
          (delete_args (ByPoints chunk))
          (after_deletes (client this) (collectionName this) (world s)
             (take k sent))).2 = inr tt) ∧
    (client_delete (client this) (collectionName this)
       (delete_args (ByPoints failed))
       (after_deletes (client this) (collectionName this) (world s) sent)).2
      = inl e.
Proof.
  revert i s. induction fuel as [|fuel IH]; intros i s; [done|].
  cbn [delete_loop]. case_bool_decide as Hi; [|done].
  assert (Hd : ∃ x l, drop i ids = x :: l).
  { destruct (drop i ids) as [|x l] eqn:E; [|by eauto].
    apply drop_nil_inv in E. lia. }
  destruct Hd as (x & l & Hd).
  unfold slice. replace (i + batchSize - i) with batchSize by lia.
  rewrite Hd. cbn [batches]. rewrite <- Hd, drop_drop.
  set (chunk := take batchSize (drop i ids)).
  set (c := CallDelete _ _). set (op := client_delete _ _ _).
  unfold bind, await.
  destruct (op (world s)) as [w [e'|[]]] eqn:Hop.
  - cbn. intros [= ->]. exists [], chunk, (batches batchSize fuel
                                             (drop (i + batchSize) ids)).
    cbn. fold op. rewrite Hop. by repeat split.
  - set (s1 := {| world := w; calls := calls s ++ [c]; uuids := uuids s |}).
    intros Hfail.
    destruct (IH (i + batchSize) s1 Hfail)
      as (sent & failed & rest & Hb & Hcalls & Haccepted & Hthrown).
    exists (chunk :: sent), failed, rest.
    split; [by rewrite Hb|]. split; [|split].
    + rewrite Hcalls. cbn. by rewrite <- app_assoc.
    + intros [|k] chunk' Hk.
      * cbn in Hk. injection Hk as <-. cbn. fold op. by rewrite Hop.
      * cbn in Hk. specialize (Haccepted k chunk' Hk).
        cbn [take]. unfold after_deletes in *. cbn [foldl]. fold op.
        by rewrite Hop.
    + unfold after_deletes. cbn [foldl]. fold op. by rewrite Hop.
Qed.

(** X1. A delete by identifiers that fails stopped at the first batch the
    service refused: the batches before it were sent in order and each was
    accepted, the refused one is the last call made, the error is the one
    that call threw, as it was thrown, and the batches after it were never
    sent.  The request of a batch names the configured collection, waits
    for completion, asks for weak ordering and carries the identifiers of
    that batch; each is made in the world the previous ones left. *)
Theorem delete_failing_batch_aborts this params ids s e :
  dp_ids params = Some ids →
  (delete this params s).2 = inl e →
  let request (chunk : list string) : DeleteArgs number :=
    {| d_wait := true; d_ordering := "weak"; d_selector := ByPoints chunk |} in
  let sent_to (w : World) (chunks : list (list string)) : World :=
    foldl (λ w chunk,
             (client_delete (client this) (collectionName this)
                (request chunk) w).1) w chunks in
  ∃ sent failed rest,
    concat (sent ++ failed :: rest) = ids ∧
    calls (delete this params s).1 =
      calls s ++
        ((λ chunk, CallDelete (collectionName this) (request chunk))
           <$> sent ++ [failed]) ∧
    (∀ k chunk,
       sent !! k = Some chunk →
       (client_delete (client this) (collectionName this) (request chunk)
          (sent_to (world s) (take k sent))).2 = inr tt) ∧
    (client_delete (client this) (collectionName this) (request failed)
       (sent_to (world s) sent)).2 = inl e.
Proof.
  intros Hids Hfail request sent_to. subst request sent_to.
  unfold delete in *. rewrite Hids in *.
  destruct (delete_loop_failure this ids (length ids) 0 s e Hfail)
    as (sent & failed & rest & Hb & Hcalls & Haccepted & Hthrown).
  exists sent, failed, rest. rewrite drop_0 in Hb.
  split; [|done].
  rewrite <- Hb. apply batches_concat; [apply batchSize_pos | done].
Qed.

(** X2. Whatever its arguments and whatever the service answers, [delete]
    draws no uuid and calls nothing but the delete operation of the client,
    on the configured collection, waiting for completion and with weak
    ordering; in particular it never lists or creates the collection. *)
Theorem delete_only_issues_deletes this params s :
  ∃ new,
    calls (delete this params s).1 = calls s ++ new ∧
    uuids (delete this params s).1 = uuids s ∧
    Forall (λ c, ∃ sel,
              c = CallDelete (collectionName this)
                    {| d_wait := true; d_ordering := "weak";
                       d_selector := sel |}) new.
Proof.
  unfold delete. destruct (dp_ids params) as [ids|].
  - destruct (delete_loop_spec this ids (length ids) 0 s)
      as (m & _ & _ & Hcalls & _ & Hu & _); [lia|].
    eexists. split; [exact Hcalls|]. split; [exact Hu|].
    apply Forall_fmap, Forall_forall. intros chunk _. by eexists.
  - destruct (dp_filter params) as [flt|].
    + unfold await. destruct (client_delete _ _ _ _) as [w r]. cbn.
      eexists. split; [done|]. split; [done|].
      constructor; [by eexists | constructor].
    + exists []. cbn. by rewrite app_nil_r.
Qed.

(** *** ensureCollection *)

(** X3. Whatever the service answers, the calls of [ensureCollection] are
    the listing followed by one of: nothing; with a configuration of the
    caller, the creation of the target with that configuration; without
    one, the embedding of the probe text "test", alone or followed by the
    creation of the target with the Cosine distance.  So it never creates
    more than once, never creates another collection, and never calls the
    embeddings provider when the caller gave a configuration. *)
Theorem ensureCollection_call_shapes this s :
  ∃ new,
    calls (ensureCollection this s).1 = calls s ++ CallGetCollections :: new ∧
    match collectionConfig this with
    | Some config =>
        new = [] ∨ new = [CallCreateCollection (collectionName this) config]
    | None =>
        new = [] ∨ new = [CallEmbedQuery "test"] ∨
        ∃ n, new = [CallEmbedQuery "test";
                    CallCreateCollection (collectionName this)
                      {| vectors := {| size := n; distance := "Cosine" |} |}]
    end.
Proof.
  unfold ensureCollection, bind, await, ret.
  destruct (getCollections _ _) as [w1 [e|listing]]; cbn.
  { exists []. split; [done|]. destruct (collectionConfig this); by left. }
  case_bool_decide.
  { exists []. split; [done|]. destruct (collectionConfig this); by left. }
  destruct (collectionConfig this) as [config|]; cbn.
  - destruct (createCollection _ _ _ _) as [w2 [e|b]]; cbn;
      rewrite <- app_assoc; eexists; (split; [done|]); by right.
  - destruct (embedQuery _ _ _) as [w2 [e|probe]]; cbn.
    { rewrite <- app_assoc. eexists. split; [done|]. right. by left. }
    destruct (createCollection _ _ _ _) as [w3 [e|b]]; cbn;
      rewrite <- !app_assoc; eexists; (split; [done|]); right; right;
      by eexists.
Qed.

(** *** addVectors *)

Lemma points_fail this documents documentOptions vectors :
  ∀ idx s,
    idx ≤ length documents →
    length documents < idx + length vectors →
    ∃ s',
      map_idx (point this documents documentOptions) vectors idx s =
        (s', inl (TypeError
                    "Cannot read properties of undefined (reading 'id')")) ∧
      world s' = world s ∧ calls s' = calls s.
Proof.
  induction vectors as [|v vs IH]; intros idx s Hle Hlt.
  { cbn in Hlt. lia. }
  cbn [length] in Hlt. cbn [map_idx]. unfold bind at 1.
  destruct (documents !! idx) as [d|] eqn:Hd.
  - rewrite (point_run _ _ _ _ _ _ _ Hd).
    apply lookup_lt_Some in Hd.
    edestruct (IH (S idx)) as (s' & Hrun & Hw & Hc); [lia | lia |].
    unfold bind. rewrite Hrun. by eauto.
  - unfold point. rewrite Hd. by eauto.
Qed.

Lemma map_idx_ext {A B} (f g : A → nat → Async number World B) l :
  ∀ idx s,
    (∀ x i s', idx ≤ i < idx + length l → f x i s' = g x i s') →
    map_idx f l idx s = map_idx g l idx s.
Proof.
  induction l as [|x l IH]; intros idx s Hfg; [done|].
  cbn [map_idx length] in *. unfold bind at 1 3.
  rewrite Hfg by lia. destruct (g x idx s) as [s1 [e|y]]; [done|].
  unfold bind. rewrite (IH (S idx) s1); [done|].
  intros x' i s' Hi. apply Hfg. lia.
Qed.

(** X4. Whatever its arguments and whatever the service answers,
    [addVectors] adds at most one upsert to the log; when it adds one, it
    is the last call made, it targets the configured collection, waits for
    completion and carries one point per vector. *)
Theorem addVectors_at_most_one_upsert this vectors documents documentOptions
    s :
  ∃ new,
    calls (addVectors this vectors documents documentOptions s).1
      = calls s ++ new ∧
    (Forall (λ c, is_upsert c = false) new ∨
     ∃ before points,
       new = before ++
         [CallUpsert (collectionName this)
            {| u_wait := true; u_points := points |}] ∧
       Forall (λ c, is_upsert c = false) before ∧
       length points = length vectors).
Proof.
  destruct (decide (vectors = [])) as [->|Hne].
  { exists []. cbn. rewrite app_nil_r. split; [done|]. by left. }
  destruct (addVectors_cases this vectors documents documentOptions s Hne)
    as (ens & _ & _ & Hnot &
        [[Hstop _]|(s1 & s2 & points & Hens & Hpts & Hrun)]).
  { exists ens. split; [done|]. by left. }
  destruct (upsert (client this) (collectionName this)
              {| u_wait := true; u_points := points |} (world s1))
    as [w r] eqn:Hup.
  rewrite (Hrun w r eq_refl). cbn.
  eexists. split; [done|]. right. exists ens, points.
  split; [done|]. split; [done|].
  destruct (points_built this documents documentOptions (uuids s1) vectors
              0 s1 s2 points) as (_ & _ & _ & Hlen & _);
    [rewrite take_0; unfold drawn; cbn; lia | done | done].
Qed.

(** X5. With fewer documents than vectors, once the collection has been
    ensured, [addVectors] fails with a TypeError on the first vector that
    has no document; nothing is upserted: the log and the world are those
    left by [ensureCollection]. *)
Theorem addVectors_missing_document this vectors documents documentOptions
    s s1 :
  length documents < length vectors →
  ensureCollection this s = (s1, inr tt) →
  (∃ e, (addVectors this vectors documents documentOptions s).2 = inl e ∧
        e_name e = "TypeError") ∧
  calls (addVectors this vectors documents documentOptions s).1 = calls s1 ∧
  world (addVectors this vectors documents documentOptions s).1 = world s1.
Proof.
  intros Hlen Hens. unfold addVectors.
  rewrite bool_decide_eq_false_2 by lia.
  rewrite (bind_inr _ _ _ _ _ Hens).
  destruct (points_fail this documents documentOptions vectors 0 s1)
    as (s' & Hrun & Hw & Hc); [lia | lia |].
  rewrite (bind_inl _ _ _ _ _ Hrun). by eauto.
Qed.

(** X6. Documents beyond the number of vectors play no part: the call is
    the call with the list of documents cut after as many documents as
    there are vectors. *)
Theorem addVectors_ignores_surplus_documents this vectors documents
    documentOptions s :
  addVectors this vectors documents documentOptions s =
    addVectors this vectors (take (length vectors) documents)
      documentOptions s.
Proof.
  unfold addVectors. case_bool_decide; [done|].
  destruct (ensureCollection this s) as [s1 [e|[]]] eqn:Hens.
  { by rewrite !(bind_inl _ _ _ _ _ Hens). }
  rewrite !(bind_inr _ _ _ _ _ Hens). unfold bind.
  rewrite (map_idx_ext (point this documents documentOptions)
             (point this (take (length vectors) documents) documentOptions));
    [done|].
  intros v i s' Hi. unfold point. by rewrite lookup_take_lt by lia.
Qed.

(** X7. When every vector has its document and the collection has been
    ensured, [addVectors] draws exactly one uuid for each of the first N
    documents that has no identifier, N being the number of vectors, and
    none for the others, whether the upsert succeeds or not. *)
Theorem addVectors_uuid_draws this vectors documents documentOptions s :
  length vectors ≤ length documents →
  (ensureCollection this s).2 = inr tt →
  uuids (addVectors this vectors documents documentOptions s).1 =
    uuids s + drawn (take (length vectors) documents).
Proof.
  intros Hlen Hok.
  destruct (decide (vectors = [])) as [->|Hne].
  { cbn [length]. rewrite take_0. unfold drawn. cbn.
    change (addVectors this [] documents documentOptions s).1 with s. lia. }
  destruct (ensureCollection this s) as [s1 r] eqn:Hens. cbn in Hok. subst r.
  destruct (ensureCollection_frame this s) as (Hu1 & _).
  rewrite Hens in Hu1. cbn in Hu1.
  destruct (points_succeed this documents documentOptions vectors 0 s1)
    as (s2 & points & Hpts); [cbn; lia|].
  destruct (points_built this documents documentOptions (uuids s) vectors
              0 s1 s2 points) as (Hw & Hc & Hu2 & _);
    [rewrite take_0; unfold drawn; cbn; lia | done |].
  unfold addVectors. rewrite bool_decide_eq_false_2 by (by destruct vectors).
  rewrite (bind_inr _ _ _ _ _ Hens), (bind_inr _ _ _ _ _ Hpts).
  unfold try_catch, await, throw.
  destruct (upsert _ _ _ _) as [w [e|u]]; cbn; by rewrite Hu2.
Qed.

(** X8. The two kinds of failure of [addVectors] reach the caller
    differently.  An error of the collection check is passed on as it is,
    status included, and nothing is upserted.  An error of the upsert is
    replaced by a new Error that has no status of its own and whose message
    is made of the status, or "Undefined error code", the message and the
    detail of the original, each read as "undefined" when missing. *)
Theorem addVectors_error_provenance this vectors documents documentOptions
    s e :
  vectors ≠ [] →
  (∀ s1,
     ensureCollection this s = (s1, inl e) →
     addVectors this vectors documents documentOptions s = (s1, inl e)) ∧
  (length vectors ≤ length documents →
   (ensureCollection this s).2 = inr tt →
   (∀ args w, (upsert (client this) (collectionName this) args w).2 = inl e) →
   ∃ err,
     (addVectors this vectors documents documentOptions s).2 = inl err ∧
     e_name err = "Error" ∧
     e_status err = None ∧
     e_message err =
       Some (match e_status e with
             | Some n => pretty n
             | None => "Undefined error code"
             end
             +:+ " " +:+ default "undefined" (e_message e)
             +:+ ": " +:+ default "undefined" (e_data_status_error e))).
Proof.
  intros Hne. split.
  - intros s1 Hens. unfold addVectors.
    rewrite bool_decide_eq_false_2 by (by destruct vectors).
    by rewrite (bind_inl _ _ _ _ _ Hens).
  - intros Hlen Hok Hrefuse.
    destruct (ensureCollection this s) as [s1 r] eqn:Hens. cbn in Hok.
    subst r.
    destruct (points_succeed this documents documentOptions vectors 0 s1)
      as (s2 & points & Hpts); [cbn; lia|].
    exists (upsert_error e). split; [|done].
    unfold addVectors.
    rewrite bool_decide_eq_false_2 by (by destruct vectors).
    rewrite (bind_inr _ _ _ _ _ Hens), (bind_inr _ _ _ _ _ Hpts).
    unfold try_catch, await, throw.
    specialize (Hrefuse {| u_wait := true; u_points := points |} (world s2)).
    destruct (upsert _ _ _ _) as [w r]. cbn in Hrefuse. by subst r.
Qed.

(** *** Searching *)

(** A map whose callback leaves the state alone and throws nothing but
    errors of one kind throws an error of that kind as soon as one element
    makes it throw. *)
Lemma map_idx_throws {A B} (f : A → nat → Async number World B)
    (P : JsError → Prop) l :
  Forall (λ x, ∀ i s,
            (∃ y, f x i s = (s, inr y)) ∨
            (∃ e, f x i s = (s, inl e) ∧ P e)) l →
  Exists (λ x, ∀ i s, ∃ e, f x i s = (s, inl e) ∧ P e) l →
  ∀ i s, ∃ e, map_idx f l i s = (s, inl e) ∧ P e.
Proof.
  induction 1 as [|x l Hx _ IH]; intros Hex i s; [by inversion Hex|].
  cbn [map_idx]. unfold bind at 1.
  destruct (Hx i s) as [[y Hy]|(e & Hthrow & He)].
  2: { rewrite Hthrow. by eauto. }
  rewrite Hy. apply Exists_cons in Hex as [Hbad|Hex].
  { destruct (Hbad i s) as (e & Hthrow & _). rewrite Hthrow in Hy.
    by inversion Hy. }
  destruct (IH Hex (S i) s) as (e & Hrun & He).
  unfold bind. rewrite Hrun. by eauto.
Qed.

Lemma document_of_run this res s :
  document_of this res s =
    (s, match sp_payload res with
        | Some payload =>
            match
              new_Document
                {| di_id := Some (sp_id res);
                   di_metadata :=
                     default JUndefined (payload !! metadataPayloadKey this);
                   di_pageContent :=
                     default JUndefined (payload !! contentPayloadKey this) |}
            with
            | Some doc => inr doc
            | None =>
                inl (TypeError
                       "Cannot read properties of null (reading 'toString')")
            end
        | None => inl (TypeError "Cannot read properties of undefined")
        end).
Proof.
  unfold document_of, construct_Document, property.
  destruct (sp_payload res); [|done]. by destruct (new_Document _).
Qed.

(** What [document_of] throws is a TypeError. *)
Lemma document_of_outcome this res s :
  (∃ doc, document_of this res s = (s, inr doc)) ∨
  (∃ e, document_of this res s = (s, inl e) ∧ e_name e = "TypeError").
Proof.
  rewrite document_of_run. destruct (sp_payload res); [|by eauto].
  destruct (new_Document _); by eauto.
Qed.


(** X10. When the collection has been ensured and the search succeeds but
    one of the hits has no payload, [similaritySearchVectorWithScore] fails
    with a TypeError, after the search has been made. *)
Theorem similaritySearch_hit_without_payload this q k flt s s1 w2 results :
  ensureCollection this s = (s1, inr tt) →
  let args :=
    {| s_vector := q; s_limit := k; s_filter := flt;
       s_with_payload := [metadataPayloadKey this; contentPayloadKey this];
       s_with_vector := false |} in
  search (client this) (collectionName this) args (world s1)
    = (w2, inr results) →
  Exists (λ res, sp_payload res = None) results →
  ∃ e,
    similaritySearchVectorWithScore this (Some q) k flt s =
      ({| world := w2;
          calls := calls s1 ++ [CallSearch (collectionName this) args];
          uuids := uuids s1 |}, inl e) ∧
    e_name e = "TypeError".
Proof.
  intros Hens args Hsearch Hex.
  unfold similaritySearchVectorWithScore.
  rewrite (bind_inr _ _ _ _ _ Hens). fold args.
  rewrite (bind_inr _ _ _ _ _ (await_eq _ _ _ _ _ Hsearch)).
  unfold mapM. apply (map_idx_throws _ (λ e, e_name e = "TypeError")).
  - apply Forall_forall. intros res _ i s'. unfold bind, ret.
    destruct (document_of_outcome this res s') as [[doc ->]|(e & -> & He)];
      by eauto.
  - eapply Exists_impl; [exact Hex|].
    intros res Hnone i s'. unfold bind.
    rewrite document_of_run, Hnone. by eauto.
Qed.

(** X22. When the collection has been ensured and the search succeeds but
    [new Document] throws on one of the hits, as it does on a content that
    is null, [similaritySearchVectorWithScore] fails with a TypeError,
    after the search has been made: no pair is returned, not even for the
    hits before that one. *)
Theorem similaritySearch_document_throws this q k flt s s1 w2 results :
  ensureCollection this s = (s1, inr tt) →
  let args :=
    {| s_vector := q; s_limit := k; s_filter := flt;
       s_with_payload := [metadataPayloadKey this; contentPayloadKey this];
       s_with_vector := false |} in
  search (client this) (collectionName this) args (world s1)
    = (w2, inr results) →
  Exists (λ res,
            ∃ payload,
              sp_payload res = Some payload ∧
              new_Document
                {| di_id := Some (sp_id res);
                   di_metadata :=
                     default JUndefined (payload !! metadataPayloadKey this);
                   di_pageContent :=
                     default JUndefined (payload !! contentPayloadKey this) |}
                = None) results →
  ∃ e,
    similaritySearchVectorWithScore this (Some q) k flt s =
      ({| world := w2;
          calls := calls s1 ++ [CallSearch (collectionName this) args];
          uuids := uuids s1 |}, inl e) ∧
    e_name e = "TypeError".
Proof.
  intros Hens args Hsearch Hex.
  unfold similaritySearchVectorWithScore.
  rewrite (bind_inr _ _ _ _ _ Hens). fold args.
  rewrite (bind_inr _ _ _ _ _ (await_eq _ _ _ _ _ Hsearch)).
  unfold mapM. apply (map_idx_throws _ (λ e, e_name e = "TypeError")).
  - apply Forall_forall. intros res _ i s'. unfold bind, ret.
    destruct (document_of_outcome this res s') as [[doc ->]|(e & -> & He)];
      by eauto.
  - eapply Exists_impl; [exact Hex|].
    intros res (payload & Hpayload & Hthrows) i s'. unfold bind.
    rewrite document_of_run, Hpayload, Hthrows. by eauto.
Qed.

(** X11. A search changes the service when the target collection is not
    listed: with a configuration of the caller,
    [similaritySearchVectorWithScore] first lists the collections and then
    creates the target with that configuration, before anything else. *)
Theorem similaritySearch_creates_missing_collection this q k flt s w1
    listing config :
  getCollections (client this) (world s) = (w1, inr listing) →
  collectionName this ∉ map name listing →
  collectionConfig this = Some config →
  ∃ rest,
    calls (similaritySearchVectorWithScore this (Some q) k flt s).1 =
      calls s ++
        [CallGetCollections;
         CallCreateCollection (collectionName this) config] ++ rest.
Proof.
  intros Hget Hout Hcfg.
  assert (Hens :
    calls (ensureCollection this s).1 =
      calls s ++ [CallGetCollections;
                  CallCreateCollection (collectionName this) config]).
  { unfold ensureCollection, bind, await, ret. rewrite Hget.
    rewrite bool_decide_eq_false_2 by done. rewrite Hcfg. cbn.
    destruct (createCollection _ _ _ _) as [w2 [e|b]]; cbn;
      by rewrite <- app_assoc. }
  unfold similaritySearchVectorWithScore.
  destruct (ensureCollection this s) as [s1 [e|[]]] eqn:Hrun; cbn in Hens.
  { rewrite (bind_inl _ _ _ _ _ Hrun). exists []. cbn.
    by rewrite Hens. }
  rewrite (bind_inr _ _ _ _ _ Hrun).
  set (args := {| s_vector := q; s_limit := k |}).
  destruct (search (client this) (collectionName this) args (world s1))
    as [w [e|results]] eqn:Hsearch.
  { rewrite (bind_inl _ _ _ _ _ (await_eq _ _ _ _ _ Hsearch)). cbn.
    rewrite Hens, <- app_assoc. by eauto. }
  rewrite (bind_inr _ _ _ _ _ (await_eq _ _ _ _ _ Hsearch)).
  unfold mapM. rewrite map_idx_calls.
  - cbn. rewrite Hens, <- app_assoc. by eauto.
  - intros res _ s'. unfold bind, ret.
    pose proof (document_of_calls this res s') as Hq.
    by destruct (document_of this res s') as [s'' [e|doc]].
Qed.

(** X12. Without options, a search by maximal marginal relevance whose
    embedding, collection check and search succeed fails with a TypeError
    only after these calls have been made; the search it has made asks for
    20 hits, without filter and with vectors. *)
Theorem maxMarginalRelevanceSearch_without_options this query s w1
    queryEmbedding s2 w3 results :
  query ≠ "" →
  embedQuery (embeddings this) query (world s) = (w1, inr queryEmbedding) →
  ensureCollection this
    {| world := w1; calls := calls s ++ [CallEmbedQuery query];
       uuids := uuids s |} = (s2, inr tt) →
  let args :=
    {| s_vector := queryEmbedding; s_limit := Some 20%Z; s_filter := None;
       s_with_payload := [metadataPayloadKey this; contentPayloadKey this];
       s_with_vector := true |} in
  search (client this) (collectionName this) args (world s2)
    = (w3, inr results) →
  ∃ e,
    maxMarginalRelevanceSearch this query None s =
      ({| world := w3;
          calls := calls s2 ++ [CallSearch (collectionName this) args];
          uuids := uuids s2 |}, inl e) ∧
    e_name e = "TypeError".
Proof.
  intros Hquery Hembed Hens args Hsearch.
  exists (TypeError "Cannot read properties of undefined (reading 'k')").
  split; [|done].
  unfold maxMarginalRelevanceSearch.
  rewrite bool_decide_eq_false_2 by done.
  rewrite (bind_inr _ _ _ _ _ (await_eq _ _ _ _ _ Hembed)).
  rewrite (bind_inr _ _ _ _ _ Hens).
  cbn [mbind option_bind default]. fold args.
  by rewrite (bind_inr _ _ _ _ _ (await_eq _ _ _ _ _ Hsearch)).
Qed.

(** X13. When the MMR function returns an index that names no fetched hit,
    or a hit without payload, a search by maximal marginal relevance whose
    embedding, collection check and search succeed fails with a TypeError
    instead of returning the other documents. *)
Theorem maxMarginalRelevanceSearch_bad_index this query options s w1
    queryEmbedding s2 w3 results :
  query ≠ "" →
  embedQuery (embeddings this) query (world s) = (w1, inr queryEmbedding) →
  ensureCollection this
    {| world := w1; calls := calls s ++ [CallEmbedQuery query];
       uuids := uuids s |} = (s2, inr tt) →
  let args :=
    {| s_vector := queryEmbedding;
       s_limit := Some (default 20%Z (mo_fetchK options));
       s_filter := mo_filter options;
       s_with_payload := [metadataPayloadKey this; contentPayloadKey this];
       s_with_vector := true |} in
  search (client this) (collectionName this) args (world s2)
    = (w3, inr results) →
  let chosen :=
    maximalMarginalRelevance queryEmbedding (map sp_vector results)
      (mo_lambda options) (mo_k options) in
  Exists (λ idx, results !! idx ≫= sp_payload = None) chosen →
  ∃ e,
    (maxMarginalRelevanceSearch this query (Some options) s).2 = inl e ∧
    e_name e = "TypeError".
Proof.
  intros Hquery Hembed Hens args Hsearch chosen Hex.
  unfold maxMarginalRelevanceSearch.
  rewrite bool_decide_eq_false_2 by done.
  rewrite (bind_inr _ _ _ _ _ (await_eq _ _ _ _ _ Hembed)).
  rewrite (bind_inr _ _ _ _ _ Hens).
  cbn [mbind option_bind]. fold args.
  rewrite (bind_inr _ _ _ _ _ (await_eq _ _ _ _ _ Hsearch)).
  fold chosen. unfold mapM.
  set (s3 := {| world := w3; calls := calls s2 ++ _; uuids := uuids s2 |}).
  edestruct (map_idx_throws
    (λ (r : option (ScoredPoint number)) (_ : nat),
       match r with
       | Some res => document_of this res
       | None => throw (TypeError "Cannot read properties of undefined")
       end)
    (λ e, e_name e = "TypeError")
    (map (λ idx, results !! idx) chosen)) as (e & Hrun & He).
  - apply Forall_forall. intros [res|] _ i s'; [|by right; eauto].
    destruct (document_of_outcome this res s') as [[doc ->]|(e & -> & He)];
      by eauto.
  - apply Exists_fmap. eapply Exists_impl; [exact Hex|].
    intros idx Hnone i s'. cbn beta in Hnone |- *.
    destruct (results !! idx) as [res|] eqn:Hres; [|by eauto].
    cbn in Hnone. rewrite document_of_run, Hnone. by eauto.
  - exists e. split; [|exact He]. by rewrite Hrun.
Qed.

(** *** addDocuments and the factories *)

Lemma addVectors_calls_extend this vectors documents documentOptions s :
  ∃ new,
    calls (addVectors this vectors documents documentOptions s).1
      = calls s ++ new.
Proof.
  destruct (decide (vectors = [])) as [->|Hne].
  { exists []. by rewrite app_nil_r. }
  destruct (addVectors_cases this vectors documents documentOptions s Hne)
    as (ens & _ & _ & _ &
        [[Hstop _]|(s1 & s2 & points & Hens & Hpts & Hrun)]);
    [by eauto|].
  destruct (upsert (client this) (collectionName this)
              {| u_wait := true; u_points := points |} (world s1))
    as [w r] eqn:Hup.
  rewrite (Hrun w r eq_refl). cbn. by eauto.
Qed.

Lemma new_QdrantVectorStore_fails (embeddings0 : Embeddings number World)
    args :
  a_client args = None → ¬ url_available args →
  new_QdrantVectorStore embeddings0 args =
    inl (Error "Qdrant client or url address must be set.").
Proof.
  unfold new_QdrantVectorStore, url_available, coalesce.
  intros -> Hno. cbn.
  destruct (a_url args) as [u|]; cbn.
  - destruct (decide (u = "")) as [->|Hu]; [done | by destruct Hno].
  - destruct (getEnvironmentVariable "QDRANT_URL") as [u|]; cbn; [|done].
    destruct (decide (u = "")) as [->|Hu]; [done | by destruct Hno].
Qed.

(** The loop of [fromTexts] makes one document per text and cannot throw:
    the content it hands to [new Document] is a string. *)
Lemma fromTexts_documents (metadatas : list (jsval number) + jsval number)
    texts :
  ∀ i s,
    ∃ docs,
      map_idx
        (λ text i,
           construct_Document
             {| di_id := None;
                di_metadata := match metadatas with
                               | inl ms => default JUndefined (ms !! i)
                               | inr m => m
                               end;
                di_pageContent := JStr text |})
        texts i s = (s, inr docs) ∧
      Forall2 (λ text doc,
                 ∃ fields,
                   di_pageContent fields = JStr text ∧
                   new_Document fields = Some doc) texts docs.
Proof.
  induction texts as [|text texts IH]; intros i s.
  { exists []. by split; [|constructor]. }
  cbn [map_idx]. unfold bind at 1, construct_Document at 1.
  set (fields := {| di_id := None; di_metadata := _;
                    di_pageContent := JStr text |}).
  destruct (new_Document_text fields text eq_refl) as [doc Hdoc].
  rewrite Hdoc. destruct (IH (S i) s) as (docs & Hrun & Hall).
  unfold bind, ret. rewrite Hrun. exists (doc :: docs).
  split; [done|]. constructor; [|done]. by exists fields.
Qed.

(** X14. [addDocuments] first asks the embeddings provider, in one call,
    for the vectors of the texts of the documents in their order.  When
    that call fails the error is passed on as it is and the client is never
    called.  When it returns no vector, as for an empty list of documents,
    nothing more is called and the method resolves. *)
Theorem addDocuments_embeds_first this documents documentOptions s w :
  let texts := map pageContent documents in
  let embedded :=
    {| world := w; calls := calls s ++ [CallEmbedDocuments texts];
       uuids := uuids s |} in
  (∀ e,
     embedDocuments (embeddings this) texts (world s) = (w, inl e) →
     addDocuments this documents documentOptions s = (embedded, inl e)) ∧
  (embedDocuments (embeddings this) texts (world s) = (w, inr []) →
   addDocuments this documents documentOptions s = (embedded, inr tt)) ∧
  (∀ vs,
     embedDocuments (embeddings this) texts (world s) = (w, inr vs) →
     addDocuments this documents documentOptions s =
       addVectors this vs documents documentOptions embedded).
Proof.
  cbn zeta. unfold addDocuments. split; [|split].
  - intros e Hembed. by rewrite (bind_inl _ _ _ _ _ (await_eq _ _ _ _ _ Hembed)).
  - intros Hembed. by rewrite (bind_inr _ _ _ _ _ (await_eq _ _ _ _ _ Hembed)).
  - intros vs Hembed.
    by rewrite (bind_inr _ _ _ _ _ (await_eq _ _ _ _ _ Hembed)).
Qed.

(** X15. Without a client handle and without an available URL the three
    factories fail with the configuration error before anything is
    embedded, listed, created or uploaded: the state, log of calls
    included, is untouched. *)
Theorem factories_fail_before_any_call texts metadatas docs
    (embeddings0 : Embeddings number World) dbConfig s :
  a_client dbConfig = None → ¬ url_available dbConfig →
  fromTexts texts metadatas embeddings0 dbConfig s =
    (s, inl (Error "Qdrant client or url address must be set.")) ∧
  fromDocuments docs embeddings0 dbConfig s =
    (s, inl (Error "Qdrant client or url address must be set.")) ∧
  fromExistingCollection embeddings0 dbConfig s =
    (s, inl (Error "Qdrant client or url address must be set.")).
Proof.
  intros Hclient Hurl.
  pose proof (new_QdrantVectorStore_fails embeddings0 dbConfig Hclient Hurl)
    as Hnew.
  split.
  - unfold fromTexts.
    destruct (fromTexts_documents metadatas texts 0 s) as (built & Hrun & _).
    rewrite (bind_inr _ _ _ _ _ Hrun).
    unfold fromDocuments, bind, lift. by rewrite Hnew.
  - unfold fromDocuments, fromExistingCollection, bind, lift.
    by rewrite Hnew.
Qed.

(** X16. Connecting to a collection that the service already lists, with a
    client handle of the caller, makes exactly one call, the listing; it
    creates and uploads nothing and returns an instance that keeps the
    caller's client and is named as asked, "documents" by default. *)
Theorem fromExistingCollection_listed
    (embeddings0 : Embeddings number World) dbConfig c s w1 listing :
  a_client dbConfig = Some c →
  getCollections c (world s) = (w1, inr listing) →
  default "documents" (a_collectionName dbConfig) ∈ map name listing →
  ∃ instance,
    fromExistingCollection embeddings0 dbConfig s =
      ({| world := w1; calls := calls s ++ [CallGetCollections];
          uuids := uuids s |}, inr instance) ∧
    client instance = c ∧
    embeddings instance = embeddings0 ∧
    collectionName instance = default "documents" (a_collectionName dbConfig).
Proof.
  intros Hclient Hget Hin.
  unfold fromExistingCollection, new_QdrantVectorStore. rewrite Hclient.
  cbn [truthy_object negb andb]. eexists. split.
  - unfold bind at 1, lift. unfold bind at 1.
    unfold ensureCollection, bind, await. cbn [client collectionName].
    rewrite Hget. by rewrite bool_decide_eq_true_2.
  - done.
Qed.

(** X17. When [new Document] keeps the text it is given and construction
    succeeds, the first call [fromTexts] makes is one embedding request for
    the texts, all of them and in their order. *)
Theorem fromTexts_embeds_texts_in_order texts metadatas
    (embeddings0 : Embeddings number World) dbConfig s :
  (∀ f t,
     di_pageContent f = JStr t →
     ∃ doc, new_Document f = Some doc ∧ pageContent doc = t) →
  is_Some (a_client dbConfig) ∨ url_available dbConfig →
  ∃ rest,
    calls (fromTexts texts metadatas embeddings0 dbConfig s).1 =
      calls s ++ CallEmbedDocuments texts :: rest.
Proof.
  intros Hdoc Havail.
  assert (Hnew : ∃ instance,
    new_QdrantVectorStore embeddings0 dbConfig = inr instance).
  { unfold new_QdrantVectorStore, url_available, coalesce in *.
    destruct Havail as [[c ->]|Hurl]; [by eauto|].
    destruct (a_client dbConfig); [by eauto|]. cbn.
    destruct (a_url dbConfig) as [u|]; cbn.
    - rewrite bool_decide_eq_true_2 by done. by eauto.
    - destruct (getEnvironmentVariable "QDRANT_URL") as [u|]; [|done].
      cbn. rewrite bool_decide_eq_true_2 by done. by eauto. }
  destruct Hnew as [instance Hnew].
  unfold fromTexts.
  destruct (fromTexts_documents metadatas texts 0 s) as (docs & Hrun & Hall).
  rewrite (bind_inr _ _ _ _ _ Hrun).
  unfold fromDocuments. unfold bind at 1, lift. rewrite Hnew.
  assert (Htexts : map pageContent docs = texts).
  { clear Hrun. induction Hall as [|t doc ts ds (f & Hf & Hmade) _ IH];
      [done|].
    cbn. rewrite IH. f_equal.
    destruct (Hdoc f t Hf) as (doc' & Hmade' & Htext).
    rewrite Hmade in Hmade'. by injection Hmade' as <-. }
  assert (Hadd : ∀ options, ∃ rest,
    calls (addDocuments instance docs options s).1 =
      calls s ++ CallEmbedDocuments texts :: rest).
  { intros options. unfold addDocuments. rewrite Htexts.
    destruct (embedDocuments (embeddings instance) texts (world s))
      as [w [e|vs]] eqn:Hembed.
    - rewrite (bind_inl _ _ _ _ _ (await_eq _ _ _ _ _ Hembed)). by eauto.
    - rewrite (bind_inr _ _ _ _ _ (await_eq _ _ _ _ _ Hembed)).
      edestruct (addVectors_calls_extend instance vs docs options)
        as [new Hnewcalls].
      rewrite Hnewcalls. cbn. rewrite <- app_assoc. by eauto. }
  unfold bind, ret.
  destruct (a_customPayload dbConfig) as [cp|].
  - destruct (Hadd (Some {| customPayload := cp |})) as [rest Hrest].
    destruct (addDocuments instance docs _ s) as [s' [e|[]]]; by eauto.
  - destruct (Hadd None) as [rest Hrest].
    destruct (addDocuments instance docs _ s) as [s' [e|[]]]; by eauto.
Qed.

Lemma bind_ret_state {A B} (m : Async number World A) (b : B) s :
  (bind m (λ _, ret b) s).1 = (m s).1.
Proof. unfold bind, ret. by destruct (m s) as [s' [e|a]]. Qed.

(** X18. [fromDocuments] hands the [customPayload] of its configuration to
    the upload as the extra payload of the documents: when the embedding
    succeeds and the run ends with an upsert, the point at position i holds
    under "customPayload" the i-th entry of that array, [undefined] when
    the array is shorter or when the configuration has none. *)
Theorem fromDocuments_passes_custom_payload docs
    (embeddings0 : Embeddings number World) dbConfig s instance w vs
    before collection args :
  new_QdrantVectorStore embeddings0 dbConfig = inr instance →
  embedDocuments embeddings0 (map pageContent docs) (world s) = (w, inr vs) →
  calls (fromDocuments docs embeddings0 dbConfig s).1 =
    calls s ++ [CallEmbedDocuments (map pageContent docs)] ++ before ++
      [CallUpsert collection args] →
  ∀ i p,
    u_points args !! i = Some p →
    p_payload p !! "customPayload" =
      Some match a_customPayload dbConfig with
           | Some cp => default JUndefined (cp !! i)
           | None => JUndefined
           end.
Proof.
  intros Hnew Hembed Hcalls i p Hp.
  assert (Hemb : embeddings instance = embeddings0).
  { revert Hnew. unfold new_QdrantVectorStore.
    destruct (_ && _); [done|]. by intros [= <-]. }
  revert Hcalls. unfold fromDocuments. unfold bind at 1, lift.
  rewrite Hnew, bind_ret_state.
  set (options :=
    match a_customPayload dbConfig with
    | Some cp => Some {| customPayload := cp |}
    | None => None
    end).
  assert (Hadd :
    (match a_customPayload dbConfig with
     | Some cp => addDocuments instance docs (Some {| customPayload := cp |})
     | None => addDocuments instance docs None
     end) = addDocuments instance docs options).
  { subst options. by destruct (a_customPayload dbConfig). }
  rewrite Hadd. unfold addDocuments. rewrite Hemb.
  rewrite (bind_inr _ _ _ _ _ (await_eq _ _ _ _ _ Hembed)).
  set (embedded := {| world := w; calls := _; uuids := uuids s |}).
  intros Hcalls.
  assert (Hlog :
    calls (addVectors instance vs docs options embedded).1 =
      calls embedded ++ before ++ [CallUpsert collection args]).
  { rewrite Hcalls. subst embedded. cbn. by rewrite <- app_assoc. }
  destruct (upserted_points_built _ _ _ _ _ _ _ _ Hlog i p Hp)
    as (v & d & _ & _ & _ & ->).
  rewrite payload_of_custom. subst options.
  by destruct (a_customPayload dbConfig).
Qed.

(** *** What is written is what is read *)

(** X19. With configured key names distinct from each other and from
    "customPayload", a hit that carries the payload [addVectors] builds for
    a document is read back by the searches as the document that
    [new Document] makes from the hit's identifier, the metadata of the
    document and its text; as the content is a string, it does make one. *)
Theorem payload_round_trip this d custom id score vector s :
  contentPayloadKey this ≠ metadataPayloadKey this →
  contentPayloadKey this ≠ "customPayload" →
  metadataPayloadKey this ≠ "customPayload" →
  ∃ doc,
    new_Document
      {| di_id := Some id;
         di_metadata := metadata d;
         di_pageContent := JStr (pageContent d) |} = Some doc ∧
    document_of this
      {| sp_id := id; sp_score := score;
         sp_payload := Some (payload_of this d custom);
         sp_vector := vector |} s = (s, inr doc).
Proof.
  intros Hcm Hcc Hmc.
  destruct (new_Document_text
              {| di_id := Some id; di_metadata := metadata d;
                 di_pageContent := JStr (pageContent d) |}
              (pageContent d) eq_refl) as [doc Hdoc].
  exists doc. split; [done|].
  rewrite document_of_run. cbn [sp_payload sp_id].
  rewrite payload_of_metadata, payload_of_content by done.
  cbn. by rewrite Hdoc.
Qed.

(** X20. When the content key and the metadata key have the same name,
    different from "customPayload", the text of a document is not stored:
    the payload built for it does not depend on the text, and what the
    searches read under the content key is the metadata. *)
Theorem payload_key_clash_drops_text this d custom :
  contentPayloadKey this = metadataPayloadKey this →
  metadataPayloadKey this ≠ "customPayload" →
  (∀ d', metadata d' = metadata d →
         payload_of this d' custom = payload_of this d custom) ∧
  property (payload_of this d custom) (contentPayloadKey this) = metadata d.
Proof.
  intros Hsame Hmc. split.
  - intros d' Hmeta. unfold payload_of.
    by rewrite Hsame, !insert_insert_eq, Hmeta.
  - unfold property. by rewrite Hsame, payload_of_metadata.
Qed.

(** *** The constructor *)

(** X21. An empty string given as [url] is not replaced by the value of
    QDRANT_URL: without a client handle, construction fails with the
    configuration error whatever the environment holds. *)
Theorem constructor_empty_url_not_replaced
    (embeddings0 : Embeddings number World) args :
  a_client args = None → a_url args = Some "" →
  new_QdrantVectorStore embeddings0 args =
    inl (Error "Qdrant client or url address must be set.").
Proof.
  intros Hclient Hurl. unfold new_QdrantVectorStore, coalesce.
  by rewrite Hclient, Hurl.
Qed.

End Further.

(** ** The further properties at work on the service kept in memory *)

(** The second of three batches is refused: two requests are made, not
    three. *)
Example mem_picky_run :
  calls (delete (mem_store_with mem_picky_client)
           {| dp_ids := Some mem_many_ids; dp_shardKey := None;
              dp_filter := None |} mem_empty).1
  = [ CallDelete "documents"
        {| d_wait := true; d_ordering := "weak";
           d_selector := ByPoints (take 1000 mem_many_ids) |};
      CallDelete "documents"
        {| d_wait := true; d_ordering := "weak";
           d_selector := ByPoints (take 1000 (drop 1000 mem_many_ids)) |} ].
Proof. vm_compute. reflexivity. Qed.

Lemma delete_failing_batch_aborts_witness :
  ∃ sent failed rest,
    concat (sent ++ failed :: rest) = mem_many_ids ∧
    calls (delete (mem_store_with mem_picky_client)
             {| dp_ids := Some mem_many_ids; dp_shardKey := None;
                dp_filter := None |} mem_empty).1 =
      (λ chunk,
         CallDelete "documents"
           {| d_wait := true; d_ordering := "weak";
              d_selector := ByPoints chunk |}) <$> sent ++ [failed] ∧
    (∀ k chunk,
       sent !! k = Some chunk →
       (client_delete mem_picky_client "documents"
          {| d_wait := true; d_ordering := "weak";
             d_selector := ByPoints chunk |}
          (foldl (λ w c,
                    (client_delete mem_picky_client "documents"
                       {| d_wait := true; d_ordering := "weak";
                          d_selector := ByPoints c |} w).1)
             (world mem_empty) (take k sent))).2 = inr tt) ∧
    (client_delete mem_picky_client "documents"
       {| d_wait := true; d_ordering := "weak";
          d_selector := ByPoints failed |}
       (foldl (λ w c,
                 (client_delete mem_picky_client "documents"
                    {| d_wait := true; d_ordering := "weak";
                       d_selector := ByPoints c |} w).1)
          (world mem_empty) sent)).2 = inl (api_error 400 "Bad request").
Proof.
  exact (delete_failing_batch_aborts (mem_store_with mem_picky_client)
           {| dp_ids := Some mem_many_ids; dp_shardKey := None;
              dp_filter := None |} mem_many_ids mem_empty
           (api_error 400 "Bad request") eq_refl
           ltac:(vm_compute; reflexivity)).
Defined.

Lemma addVectors_missing_document_witness :
  (∃ e, (addVectors mem_store [[1%Z; 2%Z]; [3%Z; 4%Z]] [mem_doc None "a"]
           None mem_empty).2 = inl e ∧
        e_name e = "TypeError") ∧
  calls (addVectors mem_store [[1%Z; 2%Z]; [3%Z; 4%Z]] [mem_doc None "a"]
           None mem_empty).1 =
    calls (ensureCollection mem_store mem_empty).1 ∧
  world (addVectors mem_store [[1%Z; 2%Z]; [3%Z; 4%Z]] [mem_doc None "a"]
           None mem_empty).1 =
    world (ensureCollection mem_store mem_empty).1.
Proof.
  apply (addVectors_missing_document mem_store [[1%Z; 2%Z]; [3%Z; 4%Z]]
           [mem_doc None "a"] None mem_empty
           (ensureCollection mem_store mem_empty).1).
  - cbn. lia.
  - vm_compute. reflexivity.
Defined.

Lemma addVectors_uuid_draws_witness :
  uuids (addVectors mem_store [[1%Z; 2%Z]; [3%Z; 4%Z]]
           [mem_doc None "a"; mem_doc (Some "x") "b"; mem_doc None "c"]
           None mem_empty).1 = 1.
Proof.
  apply (addVectors_uuid_draws mem_store [[1%Z; 2%Z]; [3%Z; 4%Z]]
           [mem_doc None "a"; mem_doc (Some "x") "b"; mem_doc None "c"]
           None mem_empty).
  - cbn. lia.
  - vm_compute. reflexivity.
Defined.


Lemma similaritySearch_hit_without_payload_witness :
  ∃ e,
    (similaritySearchVectorWithScore (mem_store_with mem_bare_client)
       (Some [1%Z; 2%Z]) None None mem_loaded).2 = inl e ∧
    e_name e = "TypeError".
Proof.
  destruct (similaritySearch_hit_without_payload
              (mem_store_with mem_bare_client) [1%Z; 2%Z] None None
              mem_loaded
              (ensureCollection (mem_store_with mem_bare_client)
                 mem_loaded).1
              (world mem_loaded)
              (map (λ h, {| sp_id := sp_id h; sp_score := sp_score h;
                            sp_payload := None; sp_vector := None |})
                 mem_hits)) as (e & Hrun & Hname).
  - vm_compute. reflexivity.
  - vm_compute. reflexivity.
  - apply Exists_cons_hd. reflexivity.
  - exists e. split; [exact (f_equal snd Hrun) | exact Hname].
Defined.

Lemma similaritySearch_document_throws_witness :
  ∃ e,
    similaritySearchVectorWithScore mem_store (Some [1%Z; 2%Z]) None None
      mem_null_loaded =
      ({| world := world mem_null_loaded;
          calls := [ CallGetCollections;
                     CallSearch "documents"
                       {| s_vector := [1%Z; 2%Z]; s_limit := None;
                          s_filter := None;
                          s_with_payload := ["metadata"; "content"];
                          s_with_vector := false |} ];
          uuids := 0 |}, inl e) ∧
    e_name e = "TypeError".
Proof.
  destruct (similaritySearch_document_throws mem_store [1%Z; 2%Z] None None
              mem_null_loaded (ensureCollection mem_store mem_null_loaded).1
              (world mem_null_loaded) [mem_scored false mem_null_point])
    as (e & Hrun & Hname).
  - vm_compute. reflexivity.
  - vm_compute. reflexivity.
  - apply Exists_cons_hd. eexists. split; reflexivity.
  - exists e. split; [exact Hrun | exact Hname].
Defined.

Lemma similaritySearch_creates_missing_collection_witness :
  ∃ rest,
    calls (similaritySearchVectorWithScore mem_configured_store
             (Some [1%Z; 2%Z; 3%Z]) None None mem_empty).1 =
      [CallGetCollections;
       CallCreateCollection "documents"
         {| vectors := {| size := 3; distance := "Dot" |} |}] ++ rest.
Proof.
  apply (similaritySearch_creates_missing_collection mem_configured_store
           [1%Z; 2%Z; 3%Z] None None mem_empty (world mem_empty) []
           {| vectors := {| size := 3; distance := "Dot" |} |}).
  - reflexivity.
  - apply not_elem_of_nil.
  - reflexivity.
Defined.

Lemma maxMarginalRelevanceSearch_without_options_witness :
  ∃ e,
    (maxMarginalRelevanceSearch mem_store "hi" None mem_loaded).2 = inl e ∧
    e_name e = "TypeError".
Proof.
  destruct (maxMarginalRelevanceSearch_without_options mem_store "hi"
              mem_loaded (world mem_loaded) (mem_embed "hi")
              (ensureCollection mem_store mem_queried).1 (world mem_loaded)
              mem_hits) as (e & Hrun & Hname).
  - discriminate.
  - reflexivity.
  - vm_compute. reflexivity.
  - vm_compute. reflexivity.
  - exists e. split; [exact (f_equal snd Hrun) | exact Hname].
Defined.

Lemma maxMarginalRelevanceSearch_bad_index_witness :
  ∃ e,
    (maxMarginalRelevanceSearch (mem_store_with mem_bare_client) "hi"
       (Some mem_mmr_options) mem_loaded).2 = inl e ∧
    e_name e = "TypeError".
Proof.
  apply (maxMarginalRelevanceSearch_bad_index
           (mem_store_with mem_bare_client) "hi" mem_mmr_options mem_loaded
           (world mem_loaded) (mem_embed "hi")
           (ensureCollection (mem_store_with mem_bare_client) mem_queried).1
           (world mem_loaded) mem_bare_hits).
  - discriminate.
  - reflexivity.
  - vm_compute. reflexivity.
  - vm_compute. reflexivity.
  - apply Exists_cons_hd. vm_compute. reflexivity.
Defined.

Lemma addDocuments_embeds_first_witness :
  addDocuments mem_store [] None mem_empty =
    ({| world := world mem_empty; calls := [CallEmbedDocuments []];
        uuids := 0 |}, inr tt) ∧
  addDocuments (mem_store_with mem_client) [mem_doc None "a"] None mem_empty =
    addVectors (mem_store_with mem_client) [mem_embed "a"] [mem_doc None "a"]
      None
      {| world := world mem_empty; calls := [CallEmbedDocuments ["a"]];
         uuids := 0 |} ∧
  addDocuments
    {| embeddings := mem_down_embeddings; client := mem_client;
       collectionName := "documents"; collectionConfig := None;
       contentPayloadKey := "content"; metadataPayloadKey := "metadata" |}
    [mem_doc None "a"] None mem_empty =
    ({| world := world mem_empty; calls := [CallEmbedDocuments ["a"]];
        uuids := 0 |}, inl (api_error 503 "Unavailable")).
Proof.
  split; [|split].
  - apply (proj1 (proj2 (addDocuments_embeds_first mem_store [] None
                           mem_empty (world mem_empty)))).
    reflexivity.
  - apply (proj2 (proj2 (addDocuments_embeds_first
                           (mem_store_with mem_client) [mem_doc None "a"]
                           None mem_empty (world mem_empty)))
             [mem_embed "a"]).
    reflexivity.
  - apply (proj1 (addDocuments_embeds_first _ [mem_doc None "a"] None
                    mem_empty (world mem_empty))
             (api_error 503 "Unavailable")).
    reflexivity.
Defined.

Lemma factories_fail_before_any_call_witness :
  fromTexts ["a"; "b"] (inr (JObj ∅)) mem_embeddings (mem_args None)
    mem_empty =
    (mem_empty, inl (Error "Qdrant client or url address must be set.")) ∧
  fromDocuments [mem_doc None "a"] mem_embeddings (mem_args None) mem_empty =
    (mem_empty, inl (Error "Qdrant client or url address must be set.")) ∧
  fromExistingCollection mem_embeddings (mem_args None) mem_empty =
    (mem_empty, inl (Error "Qdrant client or url address must be set.")).
Proof.
  apply (factories_fail_before_any_call ["a"; "b"] (inr (JObj ∅))
           [mem_doc None "a"] mem_embeddings (mem_args None) mem_empty).
  - reflexivity.
  - intros [].
Defined.

Lemma fromExistingCollection_listed_witness :
  ∃ instance,
    fromExistingCollection mem_embeddings mem_client_args mem_loaded =
      ({| world := world mem_loaded;
          calls := calls mem_loaded ++ [CallGetCollections];
          uuids := uuids mem_loaded |}, inr instance) ∧
    client instance = mem_client ∧
    embeddings instance = mem_embeddings ∧
    collectionName instance = "documents".
Proof.
  apply (fromExistingCollection_listed mem_embeddings mem_client_args
           mem_client mem_loaded (world mem_loaded)
           [{| name := "documents" |}]).
  - reflexivity.
  - vm_compute. reflexivity.
  - apply list_elem_of_here.
Defined.

Lemma fromTexts_embeds_texts_in_order_witness :
  ∃ rest,
    calls (fromTexts ["a"; "b"] (inr (JObj ∅)) mem_embeddings
             (mem_args (Some "http://localhost:6333")) mem_empty).1 =
      calls mem_empty ++ CallEmbedDocuments ["a"; "b"] :: rest.
Proof.
  apply (fromTexts_embeds_texts_in_order ["a"; "b"] (inr (JObj ∅))
           mem_embeddings (mem_args (Some "http://localhost:6333"))
           mem_empty).
  - intros f t Htext. cbn. unfold mem_new_Document. rewrite Htext.
    eexists. split; reflexivity.
  - right. cbn. discriminate.
Defined.

Lemma payload_round_trip_witness :
  document_of mem_store
    {| sp_id := "7"; sp_score := 0%Z;
       sp_payload :=
         Some (payload_of mem_store (mem_doc None "hello") JUndefined);
       sp_vector := None |} mem_empty =
    (mem_empty,
     inr {| doc_id := Some "7"; pageContent := "hello";
            metadata := JObj ∅ |}).
Proof.
  destruct (payload_round_trip mem_store (mem_doc None "hello") JUndefined
              "7" 0%Z None mem_empty ltac:(discriminate) ltac:(discriminate)
              ltac:(discriminate)) as (doc & Hdoc & Hrun).
  vm_compute in Hdoc. injection Hdoc as <-. exact Hrun.
Defined.

Lemma payload_key_clash_drops_text_witness :
  payload_of mem_clash_store (mem_doc None "other text") JUndefined =
    payload_of mem_clash_store (mem_doc None "hello") JUndefined ∧
  property (payload_of mem_clash_store (mem_doc None "hello") JUndefined)
    "data" = JObj ∅.
Proof.
  destruct (payload_key_clash_drops_text mem_clash_store
              (mem_doc None "hello") JUndefined) as [Hsame Hread].
  - reflexivity.
  - discriminate.
  - split; [apply Hsame; reflexivity | exact Hread].
Defined.

Lemma constructor_empty_url_not_replaced_witness :
  @getEnvironmentVariable Z MemWorld mem_env_imports "QDRANT_URL" =
    Some "http://env:6333" ∧
  @new_QdrantVectorStore Z MemWorld mem_env_imports mem_embeddings
    (mem_args (Some "")) =
    inl (Error "Qdrant client or url address must be set.").
Proof.
  split; [reflexivity|].
  apply (@constructor_empty_url_not_replaced Z MemWorld mem_env_imports
           mem_embeddings (mem_args (Some ""))); reflexivity.
Defined.

Lemma addVectors_error_provenance_witness :
  addVectors (mem_store_with mem_down_client) [[1%Z; 2%Z]]
    [mem_doc None "a"] None mem_empty =
    ({| world := world mem_empty; calls := [CallGetCollections];
        uuids := 0 |}, inl (api_error 503 "Unavailable")) ∧
  ∃ err,
    (addVectors (mem_store_with mem_readonly_client) [[1%Z; 2%Z]]
       [mem_doc None "a"] None mem_empty).2 = inl err ∧
    e_status err = None ∧
    e_message err = Some "403 Forbidden: Forbidden".
Proof.
  split.
  - apply (proj1 (addVectors_error_provenance
                    (mem_store_with mem_down_client) [[1%Z; 2%Z]]
                    [mem_doc None "a"] None mem_empty
                    (api_error 503 "Unavailable") ltac:(discriminate))).
    reflexivity.
  - destruct (proj2 (addVectors_error_provenance
                       (mem_store_with mem_readonly_client) [[1%Z; 2%Z]]
                       [mem_doc None "a"] None mem_empty
                       (api_error 403 "Forbidden") ltac:(discriminate)))
      as (err & Hrun & _ & Hstatus & Hmsg).
    + cbn. lia.
    + vm_compute. reflexivity.
    + intros args w. reflexivity.
    + exists err. split; [exact Hrun|]. split; [exact Hstatus|].
      rewrite Hmsg. vm_compute. reflexivity.
Defined.

Lemma fromDocuments_passes_custom_payload_witness :
  (∀ p, mem_custom_points !! 0 = Some p →
        p_payload p !! "customPayload" = Some (JStr "first")) ∧
  (∀ p, mem_custom_points !! 1 = Some p →
        p_payload p !! "customPayload" = Some JUndefined).
Proof.
  pose proof (fromDocuments_passes_custom_payload
                [mem_doc None "a"; mem_doc None "b"] mem_embeddings
                mem_custom_args mem_empty mem_store (world mem_empty)
                [mem_embed "a"; mem_embed "b"]
                [CallGetCollections; CallEmbedQuery "test";
                 CallCreateCollection "documents" mem_probe_config]
                "documents"
                {| u_wait := true; u_points := mem_custom_points |}
                eq_refl eq_refl) as Hcustom.
  split; intros p Hp.
  - apply (Hcustom ltac:(vm_compute; reflexivity) 0 p Hp).
  - apply (Hcustom ltac:(vm_compute; reflexivity) 1 p Hp).
Defined.
